(** * The voice-booking hook of the container-booking UI

    A shallow embedding of [useVoiceBooking] (src/App.tsx, second document:
    hooks/useVoiceBooking) together with the [BookingStep] enumeration
    (types) and the manual-entry guard of the [App] component.

    Conventions of the embedding.
    - A JavaScript string is the list of its UTF-16 code units ([list N]).
    - JavaScript numbers that hold times, volumes and [Math.random()] draws
      are rationals ([Q]); floating-point rounding is not modelled.
    - React state ([useState]) and mutable cells ([useRef]) are two records;
      a setter call is a state update applied in program order.
    - A callback of the hook is a function from the current hook value to the
      list of primitive commands it issues, in source order.
    - [onmessage] is embedded twice: on the messages on which it runs to its
      end, and (module [Raw]) on everything the session may deliver, where
      a missing [args] object or missing [parts] makes it throw. *)

From Stdlib Require Import QArith Qround Qminmax Lqa.
From Stdlib Require Import Ascii String DecimalString DecimalFacts DecimalPos.
From stdpp Require Import gmap list.

Local Open Scope Z_scope.

(** ** JavaScript strings *)

Module Js.

Abbreviation str := (list N).

(** A source literal. *)
Definition lit (s : string) : str :=
  N_of_ascii <$> String.list_ascii_of_string s.

(** Truthiness of a string: only [''] is falsy. *)
Definition truthy (s : str) : bool :=
  match s with [] => false | _ :: _ => true end.

(** [x || ''] for a possibly missing string property. *)
Definition orEmpty (x : option str) : str :=
  match x with
  | Some s => if truthy s then s else []
  | None => []
  end.

(** The class [\d]: the ASCII digits. *)
Definition isDigit (c : N) : bool := ((48 <=? c) && (c <=? 57))%N.

(** The class [\s]: ECMAScript WhiteSpace and LineTerminator. *)
Definition isSpace (c : N) : bool :=
  ((9 <=? c) && (c <=? 13) || (c =? 32) || (c =? 160) || (c =? 5760)
   || (8192 <=? c) && (c <=? 8202) || (c =? 8232) || (c =? 8233)
   || (c =? 8239) || (c =? 8287) || (c =? 12288) || (c =? 65279))%N.

(** [s.replace(/\s/g, '')] *)
Definition stripSpaces (s : str) : str :=
  List.filter (fun c => negb (isSpace c)) s.

(** [/^\d{n}$/.test(s)] *)
Definition testDigits (n : nat) (s : str) : bool :=
  (length s =? n)%nat && forallb isDigit s.

(** [/^\d+$/.test(s)] *)
Definition testDigitsPlus (s : str) : bool :=
  truthy s && forallb isDigit s.

(** [String(z)] for an integer-valued number. *)
Definition ofInt (z : Z) : str :=
  lit (NilZero.string_of_int (Z.to_int z)).

(** [s.charAt(i)]: the empty string when [i] is out of range. *)
Definition charAt (s : str) (i : Z) : str :=
  if i <? 0 then []
  else match s !! Z.to_nat i with Some c => [c] | None => [] end.

(** [s.padStart(n, pad)] *)
Definition padStart (n : nat) (pad : str) (s : str) : str :=
  let missing := (n - length s)%nat in
  match pad with
  | [] => s
  | _ :: _ => take missing (mjoin (replicate missing pad)) ++ s
  end.

(** [s.split('').join(' ')] *)
Fixpoint spaced (s : str) : str :=
  match s with
  | [] => []
  | [c] => [c]
  | c :: rest => c :: 32%N :: spaced rest
  end.

(** The number of decimal digits occurring in a string. *)
Definition digitCount (s : str) : nat :=
  length (List.filter isDigit s).

End Js.

(** ** The booking steps (types.ts) *)

Inductive BookingStep : Set :=
  | IDLE
  | CONNECTING
  | LISTENING_DPW
  | CONFIRMING_DPW
  | LISTENING_TOKEN
  | CONFIRMING_TOKEN
  | CONFIRMING_BOOKING
  | PROCESSING
  | SUCCESS
  | ERROR.

#[global] Instance BookingStep_eq_dec : EqDecision BookingStep.
Proof. solve_decision. Defined.

Definition DPW_REF_LENGTH : nat := 7.
Definition TOKEN_LENGTH : nat := 6.

(** ** The hook's data *)

(** The [useState] cells. *)
Record State := mkState {
  bookingStep : BookingStep;
  dpwRef : Js.str;
  token : Js.str;
  containerNumber : Js.str;
  containerLocation : Js.str;
  gateInTime : Js.str;
  error : option Js.str;
  volume : Q
}.

(** A buffer source handed to the output audio context: when it was told to
    start and how long its buffer lasts. *)
Record Source := mkSource { startAt : Q; duration : Q }.

(** The [useRef] cells.  A handle to a browser or session object is modelled
    by whether the cell is non-null; [audioSourcesRef] maps the identity of
    each live source node to its schedule, [sourceCount] numbers the nodes
    created so far. *)
Record Refs := mkRefs {
  sessionPromiseRef : bool;
  audioContextRef : bool;
  outputAudioContextRef : bool;
  mediaStreamRef : bool;
  scriptProcessorRef : bool;
  analyserNodeRef : bool;
  animationFrameRef : bool;
  nextStartTimeRef : Q;
  audioSourcesRef : gmap nat Source;
  sourceCount : nat
}.

Record Hook := mkHook { st : State; refs : Refs }.

Definition initState : State :=
  mkState IDLE [] [] [] [] [] None 0%Q.

Definition initRefs : Refs :=
  mkRefs false false false false false false false 0%Q ∅ 0%nat.

Definition init : Hook := mkHook initState initRefs.

(** ** Primitive commands

    One constructor per state setter and per assignment to a ref cell.
    [sendToolResponse] and [speakText] go to the remote services and leave
    the hook's own data alone; the audio that [speakText] obtains comes back
    later as an event of its own. *)

Inductive Cmd :=
  | setBookingStep (b : BookingStep)
  | setDpwRef (s : Js.str)
  | setToken (s : Js.str)
  | setContainerNumber (s : Js.str)
  | setContainerLocation (s : Js.str)
  | setGateInTime (s : Js.str)
  | setError (e : option Js.str)
  | setVolume (v : Q)
  | assignSessionPromise (b : bool)
  | assignAudioContext (b : bool)
  | assignOutputAudioContext (b : bool)
  | assignMediaStream (b : bool)
  | assignScriptProcessor (b : bool)
  | assignAnalyserNode (b : bool)
  | assignAnimationFrame (b : bool)
  | assignNextStartTime (t : Q)
  | addSource (src : Source)
  | deleteSource (id : nat)
  | clearSources
  | sendToolResponse (name : string)
  | speakText (text : Js.str).

Definition execState (c : Cmd) (s : State) : State :=
  let (b, r, t, cn, cl, g, e, v) := s in
  match c with
  | setBookingStep b' => mkState b' r t cn cl g e v
  | setDpwRef r' => mkState b r' t cn cl g e v
  | setToken t' => mkState b r t' cn cl g e v
  | setContainerNumber cn' => mkState b r t cn' cl g e v
  | setContainerLocation cl' => mkState b r t cn cl' g e v
  | setGateInTime g' => mkState b r t cn cl g' e v
  | setError e' => mkState b r t cn cl g e' v
  | setVolume v' => mkState b r t cn cl g e v'
  | _ => s
  end.

Definition execRefs (c : Cmd) (r : Refs) : Refs :=
  let (sp, ac, oc, ms, pr, an, af, nst, srcs, n) := r in
  match c with
  | assignSessionPromise x => mkRefs x ac oc ms pr an af nst srcs n
  | assignAudioContext x => mkRefs sp x oc ms pr an af nst srcs n
  | assignOutputAudioContext x => mkRefs sp ac x ms pr an af nst srcs n
  | assignMediaStream x => mkRefs sp ac oc x pr an af nst srcs n
  | assignScriptProcessor x => mkRefs sp ac oc ms x an af nst srcs n
  | assignAnalyserNode x => mkRefs sp ac oc ms pr x af nst srcs n
  | assignAnimationFrame x => mkRefs sp ac oc ms pr an x nst srcs n
  | assignNextStartTime t => mkRefs sp ac oc ms pr an af t srcs n
  | addSource src => mkRefs sp ac oc ms pr an af nst (<[n := src]> srcs) (S n)
  | deleteSource id => mkRefs sp ac oc ms pr an af nst (delete id srcs) n
  | clearSources => mkRefs sp ac oc ms pr an af nst ∅ n
  | _ => r
  end.

Definition exec (c : Cmd) (h : Hook) : Hook :=
  mkHook (execState c (st h)) (execRefs c (refs h)).

Definition run (cs : list Cmd) (h : Hook) : Hook :=
  fold_left (fun h c => exec c h) cs h.

(** The hook values seen after each command of [cs], in order. *)
Fixpoint states (cs : list Cmd) (h : Hook) : list Hook :=
  match cs with
  | [] => []
  | c :: cs' => exec c h :: states cs' (exec c h)
  end.

(** ** Procedures: code that reads the hook and issues commands *)

Definition Proc := Hook -> list Cmd.

Definition skip : Proc := fun _ => [].
Definition emit (c : Cmd) : Proc := fun _ => [c].
Definition andThen (p q : Proc) : Proc :=
  fun h => let cs := p h in cs ++ q (run cs h).

Declare Scope proc_scope.
Delimit Scope proc_scope with proc.
Bind Scope proc_scope with Proc.
Notation "p ;; q" := (andThen p q)
  (at level 100, q at level 200, right associativity) : proc_scope.
Local Open Scope proc_scope.

(** A straight-line block of commands that reads nothing. *)
Definition cmds (cs : list Cmd) : Proc := fun _ => cs.

(** ** What the hook receives from outside *)

(** A function call extracted by the remote model: [fc.name] with the
    argument its declaration requires, read from the [args] object of the
    call.  A string argument may be missing.  A call that comes without its
    [args] object makes the handler throw; such calls are in [Raw] below. *)
Inductive FunctionCall :=
  | submitDpwReferenceNumber (number : option Js.str)
  | confirmDpwReference (isCorrect : bool)
  | submitTokenNumber (number : option Js.str)
  | confirmToken (isCorrect : bool)
  | confirmBooking (proceed : bool)
  | otherCall (name : string).

(** The number of digits in a possibly missing payload. *)
Definition payloadDigits (arg : option Js.str) : nat :=
  match arg with Some s => Js.digitCount s | None => 0%nat end.

(** The guard of a submit branch, [number && /^\d{n}$/.test(number)] with
    [number] the payload without its white space. *)
Definition passesGuard (n : nat) (arg : option Js.str) : bool :=
  let number := Js.stripSpaces (Js.orEmpty arg) in
  Js.truthy number && Js.testDigits n number.

(** A submit call whose payload does not hold the required number of
    digits. *)
Definition wrongDigitCount (fc : FunctionCall) : Prop :=
  match fc with
  | submitDpwReferenceNumber arg => payloadDigits arg <> DPW_REF_LENGTH
  | submitTokenNumber arg => payloadDigits arg <> TOKEN_LENGTH
  | _ => False
  end.

Definition fcName (fc : FunctionCall) : string :=
  match fc with
  | submitDpwReferenceNumber _ => "submitDpwReferenceNumber"
  | confirmDpwReference _ => "confirmDpwReference"
  | submitTokenNumber _ => "submitTokenNumber"
  | confirmToken _ => "confirmToken"
  | confirmBooking _ => "confirmBooking"
  | otherCall name => name
  end.

(** A [LiveServerMessage].  [audio] is present when the model turn carries
    inline audio data and holds the duration of the buffer that
    [decodeAudioData] (utils/audioUtils, not part of the sources at hand)
    makes of it. *)
Record Message := mkMessage {
  audio : option Q;
  functionCalls : list FunctionCall;
  interrupted : bool
}.

(** The message that carries one function call and nothing else. *)
Definition says (fc : FunctionCall) : Message := mkMessage None [fc] false.

(** What a callback reads from the browser while it runs: the output audio
    context's [currentTime] and the successive results of [Math.random()]. *)
Record Env := mkEnv { currentTime : Q; random : nat -> Q }.

(** ** Audio playback *)

(** [now] is [audioContext.currentTime] as the call reads it and [d] the
    duration of the decoded buffer.  The call is taken to run as one piece:
    its only [await] is on [decodeAudioData], which does no input or output
    of its own. *)
Definition playAudio (now d : Q) : Proc :=
  (fun h => if outputAudioContextRef (refs h) then []
            else [assignOutputAudioContext true]) ;;
  (fun h => [assignNextStartTime (Qmax (nextStartTimeRef (refs h)) now)]) ;;
  (fun h => [addSource (mkSource (nextStartTimeRef (refs h)) d)]) ;;
  (fun h => [assignNextStartTime (nextStartTimeRef (refs h) + d)%Q]).

Definition stopPlayback : Proc :=
  cmds [clearSources; assignNextStartTime 0%Q].

(** The ['ended'] listener that [playAudio] attaches to a source. *)
Definition sourceEnded (id : nat) : Proc := cmds [deleteSource id].

(** ** Mock fulfilment *)

Definition mockContainerNumber (rnd : nat -> Q) : Js.str :=
  Js.lit "DPWU" ++ Js.ofInt (Qfloor (1000000 + rnd 0%nat * 9000000)%Q).

Definition letters : Js.str := Js.lit "ABCDEFGHIJKLMNOPQRSTUVWXYZ".

Definition randomChar (r : Q) : Js.str :=
  Js.charAt letters (Qfloor (r * inject_Z (Z.of_nat (length letters)))%Q).

Definition generateMockLocation (rnd : nat -> Q) : Js.str :=
  let part1 := Js.padStart 2 (Js.lit "0") (Js.ofInt (Qfloor (rnd 1%nat * 100)%Q)) in
  let part2 := randomChar (rnd 2%nat) in
  let part3 := Js.padStart 2 (Js.lit "0") (Js.ofInt (Qfloor (rnd 3%nat * 100)%Q)) in
  let part4 := randomChar (rnd 4%nat) in
  let part5 := Js.ofInt (Qfloor (rnd 5%nat * 10)%Q) in
  part1 ++ part2 ++ part3 ++ part4 ++ part5.

Definition mockGateInTime (rnd : nat -> Q) : Js.str :=
  Js.ofInt (Qfloor (1 + rnd 6%nat * 12)%Q) ++ Js.lit ":"
  ++ Js.padStart 2 (Js.lit "0") (Js.ofInt (Qfloor (rnd 7%nat * 60)%Q))
  ++ Js.lit " PM".

Definition confirmationMessage (c l g : Js.str) : Js.str :=
  Js.lit "Your container has been successfully booked. The container number is "
  ++ Js.spaced c ++ Js.lit ". It is located at " ++ Js.spaced l
  ++ Js.lit ". Please proceed to the gate today at " ++ g ++ Js.lit ".".

(** [processBooking] runs up to its only [await] within the caller's turn. *)
Definition processBooking (rnd : nat -> Q) : Proc :=
  let c := mockContainerNumber rnd in
  let l := generateMockLocation rnd in
  let g := mockGateInTime rnd in
  cmds [setContainerNumber c;
        setContainerLocation l;
        setGateInTime g;
        setBookingStep SUCCESS;
        speakText (confirmationMessage c l g)].

(** How many [Math.random()] results a function call consumes. *)
Definition draws (fc : FunctionCall) : nat :=
  match fc with confirmBooking true => 8%nat | _ => 0%nat end.

(** ** The session callbacks *)

(** The body of the loop over [message.toolCall.functionCalls]. *)
Definition handleFunctionCall (rnd : nat -> Q) (fc : FunctionCall) : Proc :=
  (fun h => if sessionPromiseRef (refs h)
            then [sendToolResponse (fcName fc)] else []) ;;
  match fc with
  | submitDpwReferenceNumber arg =>
      let number := Js.stripSpaces (Js.orEmpty arg) in
      if Js.truthy number && Js.testDigits 7 number
      then cmds [setDpwRef number; setBookingStep CONFIRMING_DPW]
      else skip
  | confirmDpwReference isCorrect =>
      if isCorrect
      then cmds [setBookingStep LISTENING_TOKEN]
      else cmds [setDpwRef []; setBookingStep LISTENING_DPW]
  | submitTokenNumber arg =>
      let number := Js.stripSpaces (Js.orEmpty arg) in
      if Js.truthy number && Js.testDigits 6 number
      then cmds [setToken number; setBookingStep CONFIRMING_TOKEN]
      else skip
  | confirmToken isCorrect =>
      if isCorrect
      then cmds [setBookingStep CONFIRMING_BOOKING]
      else cmds [setToken []; setBookingStep LISTENING_TOKEN]
  | confirmBooking proceed =>
      if proceed
      then cmds [setBookingStep PROCESSING] ;; processBooking rnd
      else cmds [setDpwRef []; setToken []; setBookingStep LISTENING_DPW]
  | otherCall _ => skip
  end.

Fixpoint handleFunctionCalls (rnd : nat -> Q) (fcs : list FunctionCall) : Proc :=
  match fcs with
  | [] => skip
  | fc :: rest =>
      handleFunctionCall rnd fc ;;
      handleFunctionCalls (fun i => rnd (draws fc + i)%nat) rest
  end.

Definition onmessage (env : Env) (message : Message) : Proc :=
  match audio message with
  | Some d => playAudio (currentTime env) d
  | None => skip
  end ;;
  handleFunctionCalls (random env) (functionCalls message) ;;
  if interrupted message then stopPlayback else skip.

Definition cleanup : Proc :=
  stopPlayback ;;
  (fun h => if animationFrameRef (refs h)
            then [assignAnimationFrame false] else []) ;;
  cmds [assignAnalyserNode false;
        assignScriptProcessor false;
        assignAudioContext false;
        assignOutputAudioContext false;
        assignMediaStream false;
        assignSessionPromise false].

Definition connectionErrorMessage : Js.str :=
  Js.lit "A connection error occurred. Please try again.".

Definition microphoneErrorMessage : Js.str :=
  Js.lit "Could not access the microphone. Please grant permission and try again.".

Definition onopen : Proc :=
  cmds [setBookingStep LISTENING_DPW;
        assignScriptProcessor true;
        assignAnalyserNode true;
        assignAnimationFrame true].

Definition onerror : Proc :=
  cmds [setError (Some connectionErrorMessage); setBookingStep ERROR] ;;
  cleanup.

Definition onclose : Proc := cleanup.

(** The animation-frame callback; [average] is the mean of the analyser's
    frequency bytes. *)
Definition updateVolume (average : Q) : Proc :=
  fun h => if analyserNodeRef (refs h)
           then [setVolume (average / 128)%Q; assignAnimationFrame true]
           else [].

(** ** The operations the hook returns *)

(** [granted] tells whether the [try] block ran to its end; when it does not
    (the microphone is refused) the [catch] block runs. *)
Definition startBooking (granted : bool) : Proc :=
  fun h =>
    if sessionPromiseRef (refs h) then []
    else
      (cmds [setBookingStep CONNECTING;
             setError None;
             setDpwRef [];
             setToken [];
             setContainerNumber [];
             setContainerLocation [];
             setGateInTime [];
             setVolume 0%Q] ;;
       if granted
       then cmds [assignMediaStream true;
                  assignAudioContext true;
                  assignSessionPromise true]
       else
         cmds [setError (Some microphoneErrorMessage); setBookingStep ERROR] ;;
         cleanup) h.

Definition manualRefPrompt (number : Js.str) : Js.str :=
  Js.lit "I have the DPW Reference as " ++ Js.spaced number
  ++ Js.lit ". Is that correct?".

Definition manualTokenPrompt (number : Js.str) : Js.str :=
  Js.lit "I have the Token as " ++ Js.spaced number
  ++ Js.lit ". Is that correct?".

(** [bookingStep] is the value the callback closed over, read before
    [stopPlayback] runs. *)
Definition submitManualInput (number : Js.str) : Proc :=
  fun h =>
    (stopPlayback ;;
     match bookingStep (st h) with
     | LISTENING_DPW =>
         cmds [setDpwRef number;
               setBookingStep CONFIRMING_DPW;
               speakText (manualRefPrompt number)]
     | LISTENING_TOKEN =>
         cmds [setToken number;
               setBookingStep CONFIRMING_TOKEN;
               speakText (manualTokenPrompt number)]
     | _ => skip
     end) h.

Definition reset : Proc :=
  cleanup ;;
  cmds [setBookingStep IDLE;
        setDpwRef [];
        setToken [];
        setContainerNumber [];
        setContainerLocation [];
        setGateInTime [];
        setError None;
        setVolume 0%Q].

(** ** The manual-entry form of [App] *)

Definition requiredLength (b : BookingStep) : nat :=
  match b with LISTENING_DPW => 7%nat | _ => 6%nat end.

Definition isInputValid (b : BookingStep) (manualInput : Js.str) : bool :=
  (length manualInput =? requiredLength b)%nat && Js.testDigitsPlus manualInput.

Definition handleManualSubmit (manualInput : Js.str) : Proc :=
  fun h =>
    if isInputValid (bookingStep (st h)) manualInput
    then submitManualInput manualInput h
    else [].

(** ** Events and the machine they drive *)

Inductive Event :=
  | EStartBooking (granted : bool)
  | EOpen
  | EMessage (env : Env) (message : Message)
  | EError
  | EClose
  | ESubmitManualInput (number : Js.str)
  | EReset
  | ESpeechAudio (now d : Q)
  | ESourceEnded (id : nat)
  | EAnimationFrame (average : Q).

Definition handler (e : Event) : Proc :=
  match e with
  | EStartBooking granted => startBooking granted
  | EOpen => onopen
  | EMessage env message => onmessage env message
  | EError => onerror
  | EClose => onclose
  | ESubmitManualInput number => submitManualInput number
  | EReset => reset
  | ESpeechAudio now d => playAudio now d
  | ESourceEnded id => sourceEnded id
  | EAnimationFrame average => updateVolume average
  end.

(** The hook after a callback has run to completion. *)
Definition after (p : Proc) (h : Hook) : Hook := run (p h) h.

(** A run of [playAudio] calls, one per chunk, each given as the current
    time at the call and the duration of the chunk. *)
Definition playAll (chunks : list (Q * Q)) (h : Hook) : Hook :=
  fold_left (fun h c => after (playAudio c.1 c.2) h) chunks h.

Definition step (e : Event) (h : Hook) : Hook := after (handler e) h.

Definition steps (es : list Event) (h : Hook) : Hook :=
  fold_left (fun h e => step e h) es h.

Inductive reachable : Hook -> Prop :=
  | reachable_init : reachable init
  | reachable_step e h : reachable h -> reachable (step e h).

(** ** The linear order of the steps *)

(** The steps of a booking in the order of the enumeration; [ERROR] stands
    outside it. *)
Definition order : list BookingStep :=
  [IDLE; CONNECTING; LISTENING_DPW; CONFIRMING_DPW; LISTENING_TOKEN;
   CONFIRMING_TOKEN; CONFIRMING_BOOKING; PROCESSING; SUCCESS].

Fixpoint position (b : BookingStep) (l : list BookingStep) : option nat :=
  match l with
  | [] => None
  | x :: l' => if decide (x = b) then Some 0%nat else S <$> position b l'
  end.

Definition successor (b : BookingStep) : option BookingStep :=
  match position b order with
  | Some i => order !! S i
  | None => None
  end.

Definition isListeningStep (b : BookingStep) : bool :=
  match b with LISTENING_DPW | LISTENING_TOKEN => true | _ => false end.

(** The last listening step strictly before [b] in the order. *)
Definition precedingListening (b : BookingStep) : option BookingStep :=
  match position b order with
  | Some i => last (List.filter isListeningStep (take i order))
  | None => None
  end.

Definition isDenial (fc : FunctionCall) : bool :=
  match fc with
  | confirmDpwReference false | confirmToken false | confirmBooking false => true
  | _ => false
  end.

(** The step at which the dialogue script issues a function call. *)
Definition expectedAt (fc : FunctionCall) : option BookingStep :=
  match fc with
  | submitDpwReferenceNumber _ => Some LISTENING_DPW
  | confirmDpwReference _ => Some CONFIRMING_DPW
  | submitTokenNumber _ => Some LISTENING_TOKEN
  | confirmToken _ => Some CONFIRMING_TOKEN
  | confirmBooking _ => Some CONFIRMING_BOOKING
  | otherCall _ => None
  end.

(** The changes of step a command list makes, as (from, to) pairs. *)
Fixpoint transitions (cs : list Cmd) (b : BookingStep)
  : list (BookingStep * BookingStep) :=
  match cs with
  | [] => []
  | setBookingStep b' :: cs' => (b, b') :: transitions cs' b'
  | _ :: cs' => transitions cs' b
  end.

(** A change of step that follows the order, or rolls a denial back to the
    listening step just before. *)
Definition linearOrRollback (fc : FunctionCall) (ab : BookingStep * BookingStep)
  : Prop :=
  successor ab.1 = Some ab.2
  \/ (isDenial fc = true /\ precedingListening ab.1 = Some ab.2).

(** The three calls that carry the user's yes or no. *)
Definition isConfirmation (fc : FunctionCall) : bool :=
  match fc with
  | confirmDpwReference _ | confirmToken _ | confirmBooking _ => true
  | _ => false
  end.

(** The one kind of move each call may make: a refused final confirmation
    goes from [CONFIRMING_BOOKING] to [LISTENING_DPW], a denied reference or
    token goes to the listening step just before, and every other call goes
    to the next step of the order. *)
Definition movesAsAmended (fc : FunctionCall) (ab : BookingStep * BookingStep)
  : Prop :=
  match fc with
  | confirmBooking false =>
      ab.1 = CONFIRMING_BOOKING /\ ab.2 = LISTENING_DPW
  | confirmDpwReference false | confirmToken false =>
      precedingListening ab.1 = Some ab.2
  | _ => successor ab.1 = Some ab.2
  end.

(** ** Notions the properties speak of *)

(** A booking record with its three fulfilment fields filled in. *)
Definition populated (h : Hook) : Prop :=
  containerNumber (st h) <> []
  /\ containerLocation (st h) <> []
  /\ gateInTime (st h) <> [].

(** A function call that has no branch of its own in the handler or fails
    the guard of its branch, for whatever reason: a missing payload, a wrong
    number of digits, a character that is neither a digit nor white space. *)
Definition carriesNoTransition (fc : FunctionCall) : Prop :=
  match fc with
  | otherCall _ => True
  | submitDpwReferenceNumber arg => passesGuard 7 arg = false
  | submitTokenNumber arg => passesGuard 6 arg = false
  | confirmDpwReference _ | confirmToken _ | confirmBooking _ => False
  end.


(** The order as a property of the whole machine: from every reachable
    state, each change of step that a function call makes follows the order
    or is the single-step rollback of a denial. *)
Definition followsLinearOrder : Prop :=
  forall h env fc,
    reachable h ->
    Forall (linearOrRollback fc)
      (transitions (handler (EMessage env (says fc)) h) (bookingStep (st h))).


(** ** Sample inputs *)

Definition quiet : Env := mkEnv 0%Q (fun _ => 0%Q).

Definition sampleRef : Js.str := Js.lit "1234567".
Definition sampleToken : Js.str := Js.lit "654321".

(** A session that has been opened and has brought both numbers to the
    final confirmation. *)
Definition toFinalConfirmation : list Event :=
  [EStartBooking true;
   EOpen;
   EMessage quiet (says (submitDpwReferenceNumber (Some sampleRef)));
   EMessage quiet (says (confirmDpwReference true));
   EMessage quiet (says (submitTokenNumber (Some sampleToken)));
   EMessage quiet (says (confirmToken true))].

Definition atFinalConfirmation : Hook := steps toFinalConfirmation init.

(** An open session that waits for the reference number. *)
Definition listeningForRef : Hook := steps [EStartBooking true; EOpen] init.


(** ** The contract of [Math.random()] *)

(** Every draw lies in the unit interval, 1 excluded. *)
Definition unitInterval (rnd : nat -> Q) : Prop :=
  forall i, (0 <= rnd i)%Q /\ (rnd i < 1)%Q.

(** ** Reading a command list *)

(** The names of the function calls a command list answers, in order. *)
Fixpoint toolResponses (cs : list Cmd) : list string :=
  match cs with
  | [] => []
  | sendToolResponse name :: cs' => name :: toolResponses cs'
  | _ :: cs' => toolResponses cs'
  end.

(** A dialogue that goes through without a denial, for given payloads. *)
Definition straightThrough (env : Env) (refPayload tokenPayload : Js.str)
  : list Event :=
  [EStartBooking true;
   EOpen;
   EMessage env (says (submitDpwReferenceNumber (Some refPayload)));
   EMessage env (says (confirmDpwReference true));
   EMessage env (says (submitTokenNumber (Some tokenPayload)));
   EMessage env (says (confirmToken true));
   EMessage env (says (confirmBooking true))].

(** ** States reachable under a restriction on the events *)

Inductive reachableWith (ok : Hook -> Event -> Prop) : Hook -> Prop :=
  | reachableWith_init : reachableWith ok init
  | reachableWith_step e h :
      reachableWith ok h -> ok h e -> reachableWith ok (step e h).

(** The form of [App] submits only what [isInputValid] accepts at the step
    on display; the session callbacks are not restricted. *)
Definition offeredByApp (h : Hook) (e : Event) : Prop :=
  match e with
  | ESubmitManualInput number =>
      isInputValid (bookingStep (st h)) number = true
  | _ => True
  end.

(** The stored numbers are empty or of the required form. *)
Definition storedWellFormed (s : State) : Prop :=
  (dpwRef s = [] \/ Js.testDigits 7 (dpwRef s) = true)
  /\ (token s = [] \/ Js.testDigits 6 (token s) = true).

(** A command that cannot store an ill-formed number. *)
Definition keepsWellFormed (c : Cmd) : Prop :=
  match c with
  | setDpwRef s => s = [] \/ Js.testDigits 7 s = true
  | setToken s => s = [] \/ Js.testDigits 6 s = true
  | _ => True
  end.

(** Audio buffers have a duration that is not negative. *)
Definition nonnegDurations (_ : Hook) (e : Event) : Prop :=
  match e with
  | EMessage _ message =>
      match audio message with Some d => (0 <= d)%Q | None => True end
  | ESpeechAudio _ d => (0 <= d)%Q
  | _ => True
  end.

(** The sources in the queue, taken in the order of their creation, do not
    overlap, and the cursor is at or after the end of each. *)
Definition queueInOrder (r : Refs) : Prop :=
  (forall i s,
     audioSourcesRef r !! i = Some s ->
     (i < sourceCount r)%nat /\ (startAt s + duration s <= nextStartTimeRef r)%Q)
  /\ (forall i j si sj,
        (i < j)%nat ->
        audioSourcesRef r !! i = Some si ->
        audioSourcesRef r !! j = Some sj ->
        (startAt si + duration si <= startAt sj)%Q).

(** Two values of the ref cells with the same queue, cursor and count. *)
Definition sameQueue (r r' : Refs) : Prop :=
  nextStartTimeRef r' = nextStartTimeRef r
  /\ audioSourcesRef r' = audioSourcesRef r
  /\ sourceCount r' = sourceCount r.

(** ** The view of [App] *)

(** [s.replace(/\D/g, '')] *)
Definition stripNonDigits (s : Js.str) : Js.str := List.filter Js.isDigit s.

Definition getStatusMessage (b : BookingStep) (err : option Js.str) : Js.str :=
  match b with
  | IDLE => Js.lit "Welcome to DP World Container Booking System."
  | CONNECTING => Js.lit "Connecting to booking service..."
  | LISTENING_DPW => Js.lit "Please say your 7-digit DPW Reference Number now."
  | CONFIRMING_DPW => Js.lit "Awaiting confirmation for DPW Reference..."
  | LISTENING_TOKEN =>
      Js.lit "Thank you. Now, please say your 6-digit Token Number."
  | CONFIRMING_TOKEN => Js.lit "Awaiting confirmation for Token Number..."
  | CONFIRMING_BOOKING =>
      Js.lit "Please confirm both numbers to finalize your booking."
  | PROCESSING => Js.lit "Booking your container, please wait..."
  | SUCCESS => Js.lit "Your container has been successfully booked."
  | ERROR =>
      match err with
      | Some e => if Js.truthy e then e else Js.lit "An unknown error occurred."
      | None => Js.lit "An unknown error occurred."
      end
  end.

(** The status line for a value of the hook. *)
Definition statusOf (h : Hook) : Js.str :=
  getStatusMessage (bookingStep (st h)) (error (st h)).

Definition isListening (b : BookingStep) : bool :=
  bool_decide (b ∈ [LISTENING_DPW; LISTENING_TOKEN; CONFIRMING_DPW;
                    CONFIRMING_TOKEN; CONFIRMING_BOOKING]).

Definition isDpwInputStep (b : BookingStep) : bool :=
  bool_decide (b = LISTENING_DPW).
Definition isTokenInputStep (b : BookingStep) : bool :=
  bool_decide (b = LISTENING_TOKEN).
Definition showManualInput (b : BookingStep) : bool :=
  isDpwInputStep b || isTokenInputStep b.

Definition showVolumeIndicator (b : BookingStep) : bool :=
  bool_decide (b ∈ [LISTENING_DPW; LISTENING_TOKEN]).

Definition showMicIcon (b : BookingStep) : bool :=
  negb (bool_decide (b ∈ [IDLE; SUCCESS; ERROR])).

Definition isBookingInProgress (b : BookingStep) : bool :=
  negb (bool_decide (b ∈ [IDLE; SUCCESS; ERROR])).

(** The condition under which the [Start New Booking] button is rendered. *)
Definition showStartNewBooking (b : BookingStep) : bool :=
  bool_decide (b = SUCCESS) || bool_decide (b = ERROR).

(** The condition under which the [Cancel] button is rendered. *)
Definition showCancel (showSplash : bool) (b : BookingStep) : bool :=
  negb showSplash && isBookingInProgress b.

(** The [onChange] handler of the manual field: the new content of the
    field, given what the browser reports as its value. *)
Definition manualInputChange (b : BookingStep) (value manualInput : Js.str)
  : Js.str :=
  let val := stripNonDigits value in
  if (length val <=? requiredLength b)%nat then val else manualInput.

(** The field after a run of edits at one step; a change of step empties
    the field. *)
Definition typed (b : BookingStep) (values : list Js.str) : Js.str :=
  fold_left (fun manualInput value => manualInputChange b value manualInput)
            values [].

(** ** The volume indicator (components/VolumeIndicator) *)

(** The height of bar [index] in percent, the number that [getBarHeight]
    computes before it appends the percent sign.  [barCount] is the number
    of bars, a whole number. *)
Definition getBarHeight (barCount : Z) (volume : Q) (index : Z) : Q :=
  let centerIndex := barCount / 2 in
  let distanceFromCenter := Z.abs (index - centerIndex) in
  let clampedVolume := Qmin (Qmax volume 0) (3 # 2) in
  let heightFactor :=
    (inject_Z (barCount - distanceFromCenter)%Z / inject_Z barCount)%Q in
  let height := (clampedVolume * heightFactor * 100)%Q in
  Qmax height 2.

(** The opacity every bar is drawn with. *)
Definition barOpacity (volume : Q) : Q :=
  Qmin (Qmax (volume * (9 # 10)) (4 # 10)) 1.

(** The mean of the analyser's frequency bytes, as [updateVolume] computes
    it; the buffer has as many cells as the analyser has bins. *)
Definition frequencyAverage (dataArray : list Z) : Q :=
  (inject_Z (fold_left Z.add dataArray 0%Z)
   / inject_Z (Z.of_nat (length dataArray)))%Q.

(** ** The support chat (components/Chatbot) *)

(** [s.trim()]: white space and line terminators dropped at both ends. *)
Fixpoint trimStart (s : Js.str) : Js.str :=
  match s with
  | [] => []
  | c :: rest => if Js.isSpace c then trimStart rest else s
  end.

Definition trim (s : Js.str) : Js.str := rev (trimStart (rev (trimStart s))).

Module Chatbot.

(** A line of the conversation (the component's [Message]). *)
Record ChatMessage := mkChatMessage {
  text : Js.str;
  isUser : bool;
  timestamp : Js.str
}.

(** The [useState] cells of the component. *)
Record View := mkView {
  messages : list ChatMessage;
  input : Js.str;
  isLoading : bool;
  isRecording : bool;
  isConnectingVoice : bool
}.

(** The [useRef] cells; a handle is modelled by whether it is non-null. *)
Record Cells := mkCells {
  chatRef : bool;
  voiceSessionRef : bool;
  voiceAudioContextRef : bool;
  voiceMediaStreamRef : bool;
  voiceScriptProcessorRef : bool;
  outputAudioContextRef : bool;
  nextStartTimeRef : Q;
  audioSourcesRef : gmap nat Source;
  sourceCount : nat;
  hasSpokenGreeting : bool
}.

Record Chat := mkChat { view : View; cells : Cells }.

Definition initial : Chat :=
  mkChat (mkView [] [] false false false)
         (mkCells false false false false false false 0%Q ∅ 0%nat false).

Definition greeting : Js.str :=
  Js.lit "Hello! How can I assist you with DP World services today?".
Definition unavailable : Js.str :=
  Js.lit "Sorry, the chat service is currently unavailable.".
Definition sendFailed : Js.str :=
  Js.lit "I'm sorry, I encountered an error. Please try again.".

(** What [localStorage.getItem] followed by [JSON.parse] yields: nothing
    saved, a saved list of messages, or text that does not parse to one. *)
Inductive Saved :=
  | nothingSaved
  | savedMessages (msgs : list ChatMessage)
  | unreadable.

(** *** State setters *)

Definition setMessages (f : list ChatMessage -> list ChatMessage) (c : Chat)
  : Chat :=
  let (m, i, l, r, v) := view c in mkChat (mkView (f m) i l r v) (cells c).
Definition setInput (s : Js.str) (c : Chat) : Chat :=
  let (m, i, l, r, v) := view c in mkChat (mkView m s l r v) (cells c).
Definition setIsLoading (b : bool) (c : Chat) : Chat :=
  let (m, i, l, r, v) := view c in mkChat (mkView m i b r v) (cells c).
Definition setIsRecording (b : bool) (c : Chat) : Chat :=
  let (m, i, l, r, v) := view c in mkChat (mkView m i l b v) (cells c).
Definition setIsConnectingVoice (b : bool) (c : Chat) : Chat :=
  let (m, i, l, r, v) := view c in mkChat (mkView m i l r b) (cells c).

(** *** Voice output *)

Definition stopPlayback (c : Chat) : Chat :=
  let (ch, vs, va, vm, vp, oc, nst, srcs, n, g) := cells c in
  mkChat (view c) (mkCells ch vs va vm vp oc 0%Q ∅ n g).

(** [now] is the current time of the output context and [d] the duration of
    the decoded buffer; a closed context counts as absent. *)
Definition playAudio (now d : Q) (c : Chat) : Chat :=
  let (ch, vs, va, vm, vp, oc, nst, srcs, n, g) := cells c in
  let start := Qmax nst now in
  mkChat (view c)
         (mkCells ch vs va vm vp true (start + d)%Q
                  (<[n := mkSource start d]> srcs) (S n) g).

(** *** Voice input *)

Definition cleanupVoice (c : Chat) : Chat :=
  let (ch, vs, va, vm, vp, oc, nst, srcs, n, g) := cells c in
  setIsConnectingVoice false
    (setIsRecording false
       (mkChat (view c) (mkCells ch false false false false oc nst srcs n g))).

(** [granted] tells whether the [try] block ran to its end. *)
Definition handleToggleRecording (granted : bool) (c : Chat) : Chat :=
  if isRecording (view c) then cleanupVoice c
  else
    let c1 := setInput [] (setIsConnectingVoice true c) in
    if granted
    then
      let (ch, vs, va, vm, vp, oc, nst, srcs, n, g) := cells c1 in
      mkChat (view c1) (mkCells ch true true true vp oc nst srcs n g)
    else setIsConnectingVoice false c1.

(** The callback dereferences the voice audio context after it has set the
    two flags; when that handle is gone it stops there. *)
Definition voiceOnopen (c : Chat) : Chat :=
  let c1 := setIsRecording true (setIsConnectingVoice false c) in
  let (ch, vs, va, vm, vp, oc, nst, srcs, n, g) := cells c1 in
  mkChat (view c1)
         (mkCells ch vs va vm (if va then true else vp) oc nst srcs n g).

Definition voiceOnmessage (transcription : option Js.str) (c : Chat) : Chat :=
  match transcription with
  | Some t => if Js.truthy t then setInput t c else c
  | None => c
  end.

Definition voiceOnerror (c : Chat) : Chat := cleanupVoice c.
Definition voiceOnclose (c : Chat) : Chat := cleanupVoice c.

(** *** Opening and closing *)

(** The effect that runs when the chat is opened.  [serviceOk] tells whether
    the client and the chat could be created; [now] is the time of day as
    [toLocaleTimeString] prints it. *)
Definition opened (serviceOk : bool) (saved : Saved) (now : Js.str) (c : Chat)
  : Chat :=
  let c0 :=
    let (ch, vs, va, vm, vp, oc, nst, srcs, n, g) := cells c in
    mkChat (view c) (mkCells ch vs va vm vp oc nst srcs n true) in
  let failed :=
    setMessages (fun _ => [mkChatMessage unavailable false now]) c0 in
  if serviceOk then
    match saved with
    | unreadable => failed
    | nothingSaved | savedMessages [] =>
        let c1 := setMessages (fun _ => [mkChatMessage greeting false now]) c0 in
        let (ch, vs, va, vm, vp, oc, nst, srcs, n, g) := cells c1 in
        mkChat (view c1) (mkCells true vs va vm vp oc nst srcs n g)
    | savedMessages restoredMessages =>
        let c1 := setMessages (fun _ => restoredMessages) c0 in
        let (ch, vs, va, vm, vp, oc, nst, srcs, n, g) := cells c1 in
        mkChat (view c1) (mkCells true vs va vm vp oc nst srcs n g)
    end
  else failed.

(** The effect that runs when the chat is closed. *)
Definition closed (c : Chat) : Chat :=
  let c1 := stopPlayback (cleanupVoice c) in
  let (ch, vs, va, vm, vp, oc, nst, srcs, n, g) := cells c1 in
  mkChat (view c1) (mkCells ch vs va vm vp false nst srcs n false).

(** *** Sending *)

(** [handleSend] up to its [await]. *)
Definition handleSend (now : Js.str) (c : Chat) : Chat :=
  if negb (Js.truthy (trim (input (view c))))
     || isLoading (view c) || negb (chatRef (cells c))
  then c
  else
    let userMessage := mkChatMessage (input (view c)) true now in
    setIsLoading true
      (setInput []
         (setMessages (fun prev => prev ++ [userMessage]) (stopPlayback c))).

(** [handleSend] from its [await] on: [response] is the text of the reply,
    or nothing when the request failed. *)
Definition sendSettled (response : option Js.str) (now : Js.str) (c : Chat)
  : Chat :=
  let line :=
    match response with
    | Some t => mkChatMessage t false now
    | None => mkChatMessage sendFailed false now
    end in
  setIsLoading false (setMessages (fun prev => prev ++ [line]) c).

(** *** Events *)

Inductive Event :=
  | EOpened (serviceOk : bool) (saved : Saved) (now : Js.str)
  | EClosed
  | EType (value : Js.str)
  | ESend (now : Js.str)
  | ESendSettled (response : option Js.str) (now : Js.str)
  | EToggleRecording (granted : bool)
  | EVoiceOpen
  | EVoiceMessage (transcription : option Js.str)
  | EVoiceError
  | EVoiceClose
  | ESpeech (now d : Q).

Definition step (e : Event) (c : Chat) : Chat :=
  match e with
  | EOpened serviceOk saved now => opened serviceOk saved now c
  | EClosed => closed c
  | EType value => setInput value c
  | ESend now => handleSend now c
  | ESendSettled response now => sendSettled response now c
  | EToggleRecording granted => handleToggleRecording granted c
  | EVoiceOpen => voiceOnopen c
  | EVoiceMessage transcription => voiceOnmessage transcription c
  | EVoiceError => voiceOnerror c
  | EVoiceClose => voiceOnclose c
  | ESpeech now d => playAudio now d c
  end.

Inductive reachable : Chat -> Prop :=
  | reachable_initial : reachable initial
  | reachable_next e c : reachable c -> reachable (step e c).

End Chatbot.

(** ** Payloads the guards accept *)

(** A payload made of digits and white space only, with exactly [n]
    digits. *)
Definition payloadOk (n : nat) (arg : option Js.str) : bool :=
  (payloadDigits arg =? n)%nat
  && forallb (fun c => Js.isDigit c || Js.isSpace c) (Js.orEmpty arg).

(** ** Messages as the session may deliver them

    [FunctionCall] and [Message] above describe the messages on which
    [onmessage] runs to its end: every call of a known name carries its
    [args] object and a model turn carries its [parts].  The SDK's types
    make both optional, and the handler reads them unguarded
    ([fc.args.number], [fc.args.isCorrect], [fc.args.proceed],
    [modelTurn.parts[0]]), so it throws when one is missing and the rest of
    the callback does not run.  This module embeds the callback with those
    exits. *)

Module Raw.

(** The properties of [fc.args] that the handler reads. *)
Record Args := mkArgs {
  number : option Js.str;
  isCorrect : bool;
  proceed : bool
}.

(** A function call: its name, and its [args] object if it has one. *)
Record Call := mkCall { name : string; args : option Args }.

(** [message.serverContent?.modelTurn]: absent, present without [parts], or
    present with [parts]; in the last case [audio] is the duration of the
    buffer decoded from the inline data of the first part, if it has any. *)
Inductive ModelTurn :=
  | noTurn
  | turnWithoutParts
  | turnWithParts (audio : option Q).

Record LiveServerMessage := mkLive {
  modelTurn : ModelTurn;
  functionCalls : list Call;
  interrupted : bool
}.

(** The branch a call takes in the loop, with the arguments the branch
    reads; nothing when the branch reads a property of a missing [args]
    object, which throws.  A call of any other name takes no branch and
    reads nothing. *)
Definition decode (c : Call) : option FunctionCall :=
  if String.eqb (name c) "submitDpwReferenceNumber" then
    (fun a => submitDpwReferenceNumber (number a)) <$> args c
  else if String.eqb (name c) "confirmDpwReference" then
    (fun a => confirmDpwReference (isCorrect a)) <$> args c
  else if String.eqb (name c) "submitTokenNumber" then
    (fun a => submitTokenNumber (number a)) <$> args c
  else if String.eqb (name c) "confirmToken" then
    (fun a => confirmToken (isCorrect a)) <$> args c
  else if String.eqb (name c) "confirmBooking" then
    (fun a => confirmBooking (proceed a)) <$> args c
  else Some (otherCall (name c)).

(** The loop over the function calls: the commands issued, and whether the
    loop ran to its end.  The tool response of a call is queued before its
    branch is entered, so the call that throws is still answered. *)
Fixpoint handleCalls (rnd : nat -> Q) (cs : list Call) (h : Hook)
  : list Cmd * bool :=
  match cs with
  | [] => ([], true)
  | c :: rest =>
      match decode c with
      | Some fc =>
          let issued := handleFunctionCall rnd fc h in
          let later :=
            handleCalls (fun i => rnd (draws fc + i)%nat) rest (run issued h) in
          (issued ++ later.1, later.2)
      | None =>
          (if sessionPromiseRef (refs h)
           then [sendToolResponse (name c)] else [],
           false)
      end
  end.

Definition onmessage (env : Env) (message : LiveServerMessage) : Proc :=
  fun h =>
    match modelTurn message with
    | turnWithoutParts => []
    | turn =>
        let played :=
          match turn with
          | turnWithParts (Some d) => playAudio (currentTime env) d h
          | _ => []
          end in
        let called :=
          handleCalls (random env) (functionCalls message) (run played h) in
        played ++ called.1
        ++ (if called.2 && interrupted message
            then stopPlayback (run called.1 (run played h))
            else [])
    end.

(** The calls that get a tool response: all up to and including the first
    one that throws. *)
Fixpoint answered (cs : list Call) : list Call :=
  match cs with
  | [] => []
  | c :: rest =>
      c :: match decode c with Some _ => answered rest | None => [] end
  end.

(** The calls whose branch runs: all before the first one that throws. *)
Fixpoint applied (cs : list Call) : list FunctionCall :=
  match cs with
  | [] => []
  | c :: rest =>
      match decode c with Some fc => fc :: applied rest | None => [] end
  end.

(** No call of the list throws. *)
Definition complete (cs : list Call) : bool :=
  forallb (fun c => match decode c with Some _ => true | None => false end) cs.

(** What a delivered message amounts to: nothing when the model turn has
    no parts; otherwise its audio, the calls before the first that throws,
    and its interrupted flag if no call throws. *)
Definition effective (message : LiveServerMessage) : option Message :=
  match modelTurn message with
  | turnWithoutParts => None
  | turn =>
      Some (mkMessage
              match turn with turnWithParts (Some d) => Some d | _ => None end
              (applied (functionCalls message))
              (complete (functionCalls message) && interrupted message))
  end.

(** A call and a message with everything in place. *)
Definition ofCall (fc : FunctionCall) : Call :=
  match fc with
  | submitDpwReferenceNumber arg =>
      mkCall "submitDpwReferenceNumber" (Some (mkArgs arg false false))
  | confirmDpwReference b =>
      mkCall "confirmDpwReference" (Some (mkArgs None b false))
  | submitTokenNumber arg =>
      mkCall "submitTokenNumber" (Some (mkArgs arg false false))
  | confirmToken b => mkCall "confirmToken" (Some (mkArgs None b false))
  | confirmBooking b => mkCall "confirmBooking" (Some (mkArgs None false b))
  | otherCall other => mkCall other None
  end.

Definition ofMessage (message : Message) : LiveServerMessage :=
  let (a, fcs, i) := message in
  mkLive (match a with Some d => turnWithParts (Some d) | None => noTurn end)
         (ofCall <$> fcs) i.

(** An [otherCall] stands for a name that has no branch. *)
Definition properName (fc : FunctionCall) : Prop :=
  match fc with
  | otherCall other => decode (mkCall other None) = Some (otherCall other)
  | _ => True
  end.

End Raw.

(** * Properties *)

(** ** Running procedures *)

Lemma run_app cs1 cs2 h : run (cs1 ++ cs2) h = run cs2 (run cs1 h).
Proof. unfold run. apply fold_left_app. Qed.

Lemma after_andThen p q h : after (p ;; q) h = after q (after p h).
Proof. unfold after, andThen. apply run_app. Qed.

Lemma steps_app es1 es2 h : steps (es1 ++ es2) h = steps es2 (steps es1 h).
Proof. unfold steps. apply fold_left_app. Qed.

Lemma reachable_steps es : forall h, reachable h -> reachable (steps es h).
Proof.
  induction es as [|e es IH]; intros h Hh; [exact Hh|].
  apply IH. now constructor.
Qed.

(** A tool response and a request for speech leave the hook as it is. *)
Lemma exec_sendToolResponse name h : exec (sendToolResponse name) h = h.
Proof. destruct h as [[] []]. reflexivity. Qed.

Lemma exec_speakText text h : exec (speakText text) h = h.
Proof. destruct h as [[] []]. reflexivity. Qed.

Ltac destruct_hook h :=
  let sp := fresh "sp" in
  let af := fresh "af" in
  destruct h as [[? ? ? ? ? ? ? ?] [sp ? ? ? ? ? af ? ? ?]].

(** ** Digits and white space *)

Lemma isSpace_not_digit c : Js.isSpace c = true -> Js.isDigit c = false.
Proof.
  unfold Js.isSpace, Js.isDigit. intros H.
  apply andb_false_iff.
  destruct (N.leb_spec 48 c), (N.leb_spec c 57); auto.
  exfalso.
  repeat (apply orb_true_iff in H; destruct H as [H|H]);
    repeat match goal with
    | H : (_ && _)%bool = true |- _ => apply andb_true_iff in H; destruct H
    | H : (_ <=? _)%N = true |- _ => apply N.leb_le in H
    | H : (_ =? _)%N = true |- _ => apply N.eqb_eq in H
    end; lia.
Qed.

Lemma digitCount_stripSpaces s :
  Js.digitCount (Js.stripSpaces s) = Js.digitCount s.
Proof.
  unfold Js.digitCount, Js.stripSpaces.
  induction s as [|c s IH]; [reflexivity|].
  cbn [List.filter]. destruct (Js.isSpace c) eqn:Hc; cbn [negb List.filter].
  - rewrite (isSpace_not_digit _ Hc). exact IH.
  - destruct (Js.isDigit c); cbn [length]; congruence.
Qed.

Lemma digitCount_all_digits s :
  forallb Js.isDigit s = true -> Js.digitCount s = length s.
Proof.
  unfold Js.digitCount.
  induction s as [|c s IH]; [reflexivity|].
  cbn [forallb List.filter]. intros [Hc Hs]%andb_true_iff.
  rewrite Hc. cbn [length]. now rewrite IH.
Qed.

Lemma stripSpaces_all_digits s :
  forallb Js.isDigit s = true -> Js.stripSpaces s = s.
Proof.
  unfold Js.stripSpaces.
  induction s as [|c s IH]; [reflexivity|].
  cbn [forallb List.filter]. intros [Hc Hs]%andb_true_iff.
  destruct (Js.isSpace c) eqn:Hsp.
  - rewrite (isSpace_not_digit _ Hsp) in Hc. discriminate.
  - cbn [negb]. now rewrite IH.
Qed.

Lemma orEmpty_Some s : Js.orEmpty (Some s) = s.
Proof. destruct s; reflexivity. Qed.

(** A payload passes the guard of a submit call only with exactly [n]
    digits in it. *)
Lemma guard_digitCount n arg :
  Js.testDigits n (Js.stripSpaces (Js.orEmpty arg)) = true ->
  payloadDigits arg = n.
Proof.
  unfold Js.testDigits. intros [Hlen Hall]%andb_true_iff.
  apply Nat.eqb_eq in Hlen.
  apply digitCount_all_digits in Hall.
  rewrite digitCount_stripSpaces, Hlen in Hall.
  destruct arg as [s|]; [now rewrite orEmpty_Some in Hall | exact Hall].
Qed.

(** ** Messages that carry one function call *)

Lemma onmessage_says env fc h :
  onmessage env (says fc) h = handleFunctionCall (random env) fc h.
Proof.
  unfold onmessage, says, andThen, skip. cbn.
  now rewrite !app_nil_r.
Qed.

Lemma step_says env fc h :
  step (EMessage env (says fc)) h = after (handleFunctionCall (random env) fc) h.
Proof. unfold step, after, handler. now rewrite onmessage_says. Qed.

(** At most the tool response goes out for a payload that fails the guard. *)
Lemma handleFunctionCall_wrongDigitCount rnd fc h :
  wrongDigitCount fc ->
  handleFunctionCall rnd fc h
  = if sessionPromiseRef (refs h) then [sendToolResponse (fcName fc)] else [].
Proof.
  intros Hw. unfold handleFunctionCall, andThen.
  destruct fc as [arg| |arg| | |]; cbn in Hw; try contradiction.
  - destruct (Js.testDigits 7 _) eqn:Hg.
    + apply guard_digitCount in Hg. contradiction.
    + rewrite andb_false_r. unfold skip. apply app_nil_r.
  - destruct (Js.testDigits 6 _) eqn:Hg.
    + apply guard_digitCount in Hg. contradiction.
    + rewrite andb_false_r. unfold skip. apply app_nil_r.
Qed.

(** C2: a submit call whose payload does not hold the required number of
    digits (seven for the reference, six for the token) is ignored in every
    state: the hook, with all its stored fields, is what it was, and the step
    does not change. *)
Theorem malformed_submit_ignored (h : Hook) (env : Env) (fc : FunctionCall) :
  wrongDigitCount fc ->
  step (EMessage env (says fc)) h = h
  /\ transitions (handler (EMessage env (says fc)) h) (bookingStep (st h)) = [].
Proof.
  intros Hw. rewrite step_says. unfold after. cbn [handler].
  rewrite onmessage_says, (handleFunctionCall_wrongDigitCount _ _ _ Hw).
  destruct (sessionPromiseRef (refs h)); split; try reflexivity.
  apply exec_sendToolResponse.
Qed.

Lemma malformed_submit_ignored_witness :
  wrongDigitCount (submitDpwReferenceNumber (Some (Js.lit "12345678")))
  /\ step (EMessage quiet (says (submitDpwReferenceNumber (Some (Js.lit "12345678")))))
       atFinalConfirmation = atFinalConfirmation.
Proof.
  split.
  - vm_compute. lia.
  - apply (malformed_submit_ignored atFinalConfirmation quiet
             (submitDpwReferenceNumber (Some (Js.lit "12345678")))).
    vm_compute. lia.
Defined.

(** White space in a payload is dropped before the guard looks at it. *)
Example spaced_reference_accepted :
  let h := step (EMessage quiet
                   (says (submitDpwReferenceNumber (Some (Js.lit "1 2 3 4 5 6 7")))))
                listeningForRef in
  bookingStep (st h) = CONFIRMING_DPW /\ dpwRef (st h) = Js.lit "1234567".
Proof. split; reflexivity. Qed.

(** C3: a denial returns to the listening step of the field that was denied
    and clears that field, whatever the state it arrives in. *)
Theorem denial_returns_to_listening (h : Hook) (env : Env) :
  let h1 := step (EMessage env (says (confirmDpwReference false))) h in
  let h2 := step (EMessage env (says (confirmToken false))) h in
  (bookingStep (st h1) = LISTENING_DPW /\ dpwRef (st h1) = [])
  /\ (bookingStep (st h2) = LISTENING_TOKEN /\ token (st h2) = []).
Proof.
  cbv zeta. rewrite !step_says.
  destruct_hook h. destruct sp; repeat split; reflexivity.
Qed.

(** C4: refusing the final confirmation at [CONFIRMING_BOOKING] goes back to
    listening for the reference number and clears both stored numbers. *)
Theorem final_denial_restarts (h : Hook) (env : Env) :
  bookingStep (st h) = CONFIRMING_BOOKING ->
  let h' := step (EMessage env (says (confirmBooking false))) h in
  bookingStep (st h') = LISTENING_DPW
  /\ dpwRef (st h') = []
  /\ token (st h') = [].
Proof.
  intros _. cbv zeta. rewrite step_says.
  destruct_hook h. destruct sp; repeat split; reflexivity.
Qed.

Lemma final_denial_restarts_witness :
  bookingStep (st atFinalConfirmation) = CONFIRMING_BOOKING
  /\ dpwRef (st atFinalConfirmation) = sampleRef
  /\ token (st atFinalConfirmation) = sampleToken
  /\ let h' := step (EMessage quiet (says (confirmBooking false)))
                     atFinalConfirmation in
     bookingStep (st h') = LISTENING_DPW
     /\ dpwRef (st h') = [] /\ token (st h') = [].
Proof.
  split; [reflexivity|]. split; [reflexivity|]. split; [reflexivity|].
  apply (final_denial_restarts atFinalConfirmation quiet). reflexivity.
Defined.

(** C8: [reset] brings every state cell back to its initial value: the step
    is [IDLE], the five booking fields are empty and no error is set.  The
    playback queue and the handles are released as well. *)
Theorem reset_clears_everything (h : Hook) :
  let h' := step EReset h in
  st h' = mkState IDLE [] [] [] [] [] None 0%Q
  /\ sessionPromiseRef (refs h') = false
  /\ audioSourcesRef (refs h') = ∅
  /\ nextStartTimeRef (refs h') = 0%Q.
Proof.
  cbv zeta. destruct_hook h. destruct af; repeat split; reflexivity.
Qed.

(** C9: the handlers of the function calls never read the current step.  In
    every state a well-formed call makes the transition of its row: a
    seven-digit reference is stored and awaits confirmation, a six-digit
    token likewise, and each confirmation moves on as if it had been
    expected. *)
Theorem handlers_ignore_current_step
  (h : Hook) (env : Env) (refNumber tokenNumber : Js.str) :
  Js.testDigits 7 refNumber = true ->
  Js.testDigits 6 tokenNumber = true ->
  let on fc := st (step (EMessage env (says fc)) h) in
  (dpwRef (on (submitDpwReferenceNumber (Some refNumber))) = refNumber
   /\ bookingStep (on (submitDpwReferenceNumber (Some refNumber))) = CONFIRMING_DPW)
  /\ bookingStep (on (confirmDpwReference true)) = LISTENING_TOKEN
  /\ (token (on (submitTokenNumber (Some tokenNumber))) = tokenNumber
      /\ bookingStep (on (submitTokenNumber (Some tokenNumber))) = CONFIRMING_TOKEN)
  /\ bookingStep (on (confirmToken true)) = CONFIRMING_BOOKING
  /\ bookingStep (on (confirmBooking true)) = SUCCESS
  /\ (forall fc h',
        refs h' = refs h ->
        handler (EMessage env (says fc)) h' = handler (EMessage env (says fc)) h).
Proof.
  intros Href Htok. cbv beta zeta.
  assert (forall fc h', refs h' = refs h ->
            handler (EMessage env (says fc)) h' = handler (EMessage env (says fc)) h)
    as Hsame.
  { intros fc h' Hrefs. cbn [handler]. rewrite !onmessage_says.
    unfold handleFunctionCall, processBooking, andThen, cmds, skip.
    rewrite Hrefs.
    destruct (sessionPromiseRef (refs h)), fc as [arg|[]|arg|[]|[]|name];
      try match goal with
          | |- context [if ?g then _ else _] => destruct g
          end; reflexivity. }
  rewrite !step_says.
  unfold after, handleFunctionCall, andThen.
  rewrite !orEmpty_Some.
  pose proof Href as [Hlen7 Hall7]%andb_true_iff.
  pose proof Htok as [Hlen6 Hall6]%andb_true_iff.
  rewrite !(stripSpaces_all_digits _ Hall7), !(stripSpaces_all_digits _ Hall6).
  rewrite Href, Htok.
  assert (Js.truthy refNumber = true) as ->
    by (destruct refNumber; [discriminate Hlen7 | reflexivity]).
  assert (Js.truthy tokenNumber = true) as ->
    by (destruct tokenNumber; [discriminate Hlen6 | reflexivity]).
  split; [|split; [|split; [|split; [|split]]]]; try exact Hsame.
  all: destruct_hook h; destruct sp; repeat split; reflexivity.
Qed.

Lemma handlers_ignore_current_step_witness :
  Js.testDigits 7 sampleRef = true
  /\ Js.testDigits 6 sampleToken = true
  /\ bookingStep (st listeningForRef) = LISTENING_DPW
  /\ bookingStep (st (step (EMessage quiet (says (confirmToken true)))
                          listeningForRef)) = CONFIRMING_BOOKING.
Proof.
  split; [reflexivity|]. split; [reflexivity|]. split; [reflexivity|].
  apply (handlers_ignore_current_step listeningForRef quiet sampleRef sampleToken);
    reflexivity.
Defined.

(** C10: [submitManualInput] checks nothing about its argument.  Any string
    becomes the reference number when the hook listens for the reference,
    the token when it listens for the token, each with the move to the
    confirming step; at every other step the state cells stay as they are. *)
Theorem submitManualInput_unvalidated (h : Hook) (number : Js.str) :
  let h' := step (ESubmitManualInput number) h in
  match bookingStep (st h) with
  | LISTENING_DPW =>
      dpwRef (st h') = number /\ bookingStep (st h') = CONFIRMING_DPW
      /\ token (st h') = token (st h)
  | LISTENING_TOKEN =>
      token (st h') = number /\ bookingStep (st h') = CONFIRMING_TOKEN
      /\ dpwRef (st h') = dpwRef (st h)
  | _ => st h' = st h
  end.
Proof.
  cbv zeta. destruct_hook h.
  match goal with |- context [bookingStep (st (mkHook (mkState ?b _ _ _ _ _ _ _) _))] =>
    destruct b end; repeat split; reflexivity.
Qed.

(** The form of [App] is where the digits are counted: it forwards only a
    string of exactly the required number of digits. *)
Lemma handleManualSubmit_guard (h : Hook) (manualInput : Js.str) :
  handleManualSubmit manualInput h <> [] ->
  Js.testDigits (requiredLength (bookingStep (st h))) manualInput = true.
Proof.
  unfold handleManualSubmit, isInputValid, Js.testDigitsPlus, Js.testDigits.
  destruct (length manualInput =? _)%nat; cbn [andb]; [|congruence].
  destruct (forallb Js.isDigit manualInput); [reflexivity|].
  rewrite andb_false_r. congruence.
Qed.

(** ** The mock booking record *)

Lemma padStart_two_nonempty s : Js.padStart 2 (Js.lit "0") s <> [].
Proof.
  destruct s as [|c s]; [vm_compute; discriminate|].
  unfold Js.padStart. cbn [Js.lit String.list_ascii_of_string fmap list_fmap].
  intros [_ H]%app_eq_nil. discriminate H.
Qed.

Lemma mockContainerNumber_nonempty rnd : mockContainerNumber rnd <> [].
Proof.
  unfold mockContainerNumber. intros [H _]%app_eq_nil.
  vm_compute in H. discriminate H.
Qed.

Lemma generateMockLocation_nonempty rnd : generateMockLocation rnd <> [].
Proof.
  unfold generateMockLocation. cbv zeta. intros [H _]%app_eq_nil.
  exact (padStart_two_nonempty _ H).
Qed.

Lemma mockGateInTime_nonempty rnd : mockGateInTime rnd <> [].
Proof.
  unfold mockGateInTime. intros [_ [H _]%app_eq_nil]%app_eq_nil.
  vm_compute in H. discriminate H.
Qed.

(** With draws taken from 0 (inclusive) to 1 (exclusive) the record has the
    shape the generator aims at; two samples at the ends of the range. *)
Example mock_record_low :
  mockContainerNumber (fun _ => 0%Q) = Js.lit "DPWU1000000"
  /\ generateMockLocation (fun _ => 0%Q) = Js.lit "00A00A0"
  /\ mockGateInTime (fun _ => 0%Q) = Js.lit "1:00 PM".
Proof. repeat split; reflexivity. Qed.

Example mock_record_high :
  mockContainerNumber (fun _ => 999 # 1000) = Js.lit "DPWU9991000"
  /\ generateMockLocation (fun _ => 999 # 1000) = Js.lit "99Z99Z9"
  /\ mockGateInTime (fun _ => 999 # 1000) = Js.lit "12:59 PM".
Proof. repeat split; reflexivity. Qed.

(** C5: the final confirmation, given at [CONFIRMING_BOOKING], ends at
    [SUCCESS] with the container number, the location and the gate-in time
    all non-empty; the step passes through [PROCESSING], and at no moment of
    the callback is the step [SUCCESS] while one of the three is still
    empty. *)
Theorem final_confirmation_populates_record (h : Hook) (env : Env) :
  bookingStep (st h) = CONFIRMING_BOOKING ->
  let cs := handler (EMessage env (says (confirmBooking true))) h in
  bookingStep (st (run cs h)) = SUCCESS
  /\ populated (run cs h)
  /\ transitions cs (bookingStep (st h))
     = [(CONFIRMING_BOOKING, PROCESSING); (PROCESSING, SUCCESS)]
  /\ Forall (fun x => bookingStep (st x) = SUCCESS -> populated x) (states cs h).
Proof.
  intros Hb. cbv zeta. cbn [handler]. rewrite onmessage_says.
  pose proof (mockContainerNumber_nonempty (random env)) as Hc.
  pose proof (generateMockLocation_nonempty (random env)) as Hl.
  pose proof (mockGateInTime_nonempty (random env)) as Hg.
  unfold handleFunctionCall, processBooking, andThen, cmds. cbv zeta.
  revert Hc Hl Hg.
  generalize (mockContainerNumber (random env)) as c.
  generalize (generateMockLocation (random env)) as l.
  generalize (mockGateInTime (random env)) as g.
  intros g l c Hc Hl Hg.
  destruct_hook h. cbn in Hb. subst.
  destruct sp; cbn.
  all: split; [reflexivity|].
  all: split; [repeat split; assumption|].
  all: split; [reflexivity|].
  all: repeat constructor; cbn; try discriminate; assumption.
Qed.

Lemma final_confirmation_populates_record_witness :
  bookingStep (st atFinalConfirmation) = CONFIRMING_BOOKING
  /\ let h' := step (EMessage quiet (says (confirmBooking true)))
                     atFinalConfirmation in
     bookingStep (st h') = SUCCESS /\ populated h'.
Proof.
  split; [reflexivity|].
  destruct (final_confirmation_populates_record atFinalConfirmation quiet)
    as (Hs & Hp & _); [reflexivity|].
  split; [exact Hs | exact Hp].
Defined.

(** ** Audio playback *)

Lemma stopPlayback_clears h :
  audioSourcesRef (refs (after stopPlayback h)) = ∅
  /\ nextStartTimeRef (refs (after stopPlayback h)) = 0%Q.
Proof. destruct_hook h. split; reflexivity. Qed.

Lemma playAudio_refs now d h :
  let start := Qmax (nextStartTimeRef (refs h)) now in
  nextStartTimeRef (refs (after (playAudio now d) h)) = (start + d)%Q
  /\ audioSourcesRef (refs (after (playAudio now d) h))
     = <[sourceCount (refs h) := mkSource start d]> (audioSourcesRef (refs h))
  /\ sourceCount (refs (after (playAudio now d) h)) = S (sourceCount (refs h)).
Proof.
  destruct h as [s [sp ac oc ms pr an af nst srcs n]].
  destruct oc; repeat split; reflexivity.
Qed.

Lemma playAudio_cursor_le now d h :
  (0 <= d)%Q ->
  (nextStartTimeRef (refs h) <= nextStartTimeRef (refs (after (playAudio now d) h)))%Q.
Proof.
  intros Hd. destruct (playAudio_refs now d h) as (-> & _).
  apply Qle_trans with (Qmax (nextStartTimeRef (refs h)) now);
    [apply Q.le_max_l|].
  rewrite <- (Qplus_0_r (Qmax _ now)) at 1.
  apply Qplus_le_r. exact Hd.
Qed.

(** Over any run of calls the cursor only moves forward. *)
Lemma playAll_cursor_le chunks : forall h,
  Forall (fun c => 0 <= c.2)%Q chunks ->
  (nextStartTimeRef (refs h) <= nextStartTimeRef (refs (playAll chunks h)))%Q.
Proof.
  induction chunks as [|[now d] chunks IH]; intros h Hall.
  - apply Qle_refl.
  - inversion Hall as [|? ? Hd Hrest]; subst. cbn in Hd.
    apply Qle_trans with (nextStartTimeRef (refs (after (playAudio now d) h))).
    + now apply playAudio_cursor_le.
    + apply (IH _ Hrest).
Qed.

(** C6: a call of [playAudio] with a chunk of duration [d] never moves the
    cursor back; the chunk is told to start at the cursor, taken no earlier
    than the context's current time, and the cursor then stands exactly [d]
    later.  So the chunk of the next call starts no earlier than this one
    ends, and exactly when it ends if that moment has not passed yet.  A
    message flagged as interrupted leaves no source in the queue and the
    cursor at zero. *)
Theorem playback_cursor (h : Hook) (now d now' d' : Q) :
  (0 <= d)%Q ->
  let cursor := nextStartTimeRef (refs h) in
  let start := Qmax cursor now in
  let h1 := after (playAudio now d) h in
  let h2 := after (playAudio now' d') h1 in
  (cursor <= nextStartTimeRef (refs h1))%Q
  /\ (forall chunks,
        Forall (fun c => 0 <= c.2)%Q chunks ->
        (cursor <= nextStartTimeRef (refs (playAll chunks h)))%Q)
  /\ audioSourcesRef (refs h1) !! sourceCount (refs h) = Some (mkSource start d)
  /\ (cursor <= start)%Q /\ (now <= start)%Q
  /\ nextStartTimeRef (refs h1) = (start + d)%Q
  /\ (exists start',
        audioSourcesRef (refs h2) !! sourceCount (refs h1)
        = Some (mkSource start' d')
        /\ (start + d <= start')%Q
        /\ ((now' <= start + d)%Q -> (start' == start + d)%Q))
  /\ (forall env message,
        interrupted message = true ->
        audioSourcesRef (refs (step (EMessage env message) h)) = ∅
        /\ nextStartTimeRef (refs (step (EMessage env message) h)) = 0%Q).
Proof.
  intros Hd. cbv zeta.
  destruct (playAudio_refs now d h) as (Hcur & Hsrc & Hcnt).
  destruct (playAudio_refs now' d' (after (playAudio now d) h))
    as (Hcur' & Hsrc' & _).
  cbv zeta in *.
  set (cursor := nextStartTimeRef (refs h)) in *.
  assert (cursor <= Qmax cursor now)%Q as Hle by apply Q.le_max_l.
  split; [now apply playAudio_cursor_le|].
  split; [intros chunks Hall; now apply playAll_cursor_le|].
  split; [rewrite Hsrc; apply lookup_insert_eq|].
  split; [exact Hle|].
  split; [apply Q.le_max_r|].
  split; [exact Hcur|].
  split.
  { exists (Qmax (Qmax cursor now + d) now').
    rewrite Hsrc', Hcur. split; [apply lookup_insert_eq|].
    split; [apply Q.le_max_l|].
    intros Hnow. apply Q.max_l. exact Hnow. }
  intros env message Hint. unfold step, handler, onmessage.
  rewrite Hint, !after_andThen. apply stopPlayback_clears.
Qed.

Lemma playback_cursor_witness :
  (0 <= 1 # 2)%Q
  /\ let h1 := after (playAudio (3 # 2) (1 # 2)) listeningForRef in
     nextStartTimeRef (refs listeningForRef) = 0%Q
     /\ nextStartTimeRef (refs h1) = (Qmax 0 (3 # 2) + (1 # 2))%Q
     /\ audioSourcesRef (refs h1) !! 0%nat
        = Some (mkSource (Qmax 0 (3 # 2)) (1 # 2)).
Proof.
  split; [discriminate|].
  destruct (playback_cursor listeningForRef (3 # 2) (1 # 2) (7 # 4) (1 # 4))
    as (_ & _ & Hsrc & _ & _ & Hcur & _); [discriminate|].
  split; [reflexivity|]. split; [exact Hcur | exact Hsrc].
Defined.

(** Two chunks that arrive while the first still plays follow each other
    without a pause; a chunk that arrives after the queue has run dry starts
    at once. *)
Example chunks_back_to_back :
  let h1 := after (playAudio (3 # 2) (1 # 2)) listeningForRef in
  let h2 := after (playAudio (7 # 4) (1 # 4)) h1 in
  let h3 := after (playAudio 5 (1 # 4)) h2 in
  startAt <$> audioSourcesRef (refs h3) !! 0%nat = Some (3 # 2)%Q
  /\ Qred <$> (startAt <$> audioSourcesRef (refs h3) !! 1%nat) = Some 2%Q
  /\ startAt <$> audioSourcesRef (refs h3) !! 2%nat = Some 5%Q.
Proof. repeat split; reflexivity. Qed.

(** ** Failures and the [ERROR] step *)

Lemma playAudio_st now d h : st (after (playAudio now d) h) = st h.
Proof.
  destruct h as [s [sp ac oc ms pr an af nst srcs n]].
  destruct s, oc; reflexivity.
Qed.

Lemma stopPlayback_st h : st (after stopPlayback h) = st h.
Proof. destruct_hook h. reflexivity. Qed.









(** Every way of failing the guard is covered: the right number of digits
    with a letter after them, a wrong number of digits, no payload at all. *)
Example calls_without_transition :
  carriesNoTransition (submitDpwReferenceNumber (Some (Js.lit "1234567x")))
  /\ carriesNoTransition (submitDpwReferenceNumber (Some (Js.lit "12345678")))
  /\ carriesNoTransition (submitTokenNumber None)
  /\ carriesNoTransition (otherCall "ping")
  /\ ~ carriesNoTransition (submitDpwReferenceNumber (Some (Js.lit "1 234 567")))
  /\ ~ carriesNoTransition (confirmToken false).
Proof.
  repeat split; try reflexivity.
  - intros H. discriminate H.
  - intros H. exact H.
Qed.

(** ** The linear order *)

Example successor_values :
  successor <$> order
  = [Some CONNECTING; Some LISTENING_DPW; Some CONFIRMING_DPW;
     Some LISTENING_TOKEN; Some CONFIRMING_TOKEN; Some CONFIRMING_BOOKING;
     Some PROCESSING; Some SUCCESS; None]
  /\ successor ERROR = None.
Proof. split; reflexivity. Qed.

Example precedingListening_values :
  precedingListening <$> order
  = [None; None; None; Some LISTENING_DPW; Some LISTENING_DPW;
     Some LISTENING_TOKEN; Some LISTENING_TOKEN; Some LISTENING_TOKEN;
     Some LISTENING_TOKEN]
  /\ precedingListening ERROR = None.
Proof. split; reflexivity. Qed.

(** C1 as stated fails.  Refusing the final confirmation leads from
    [CONFIRMING_BOOKING] to [LISTENING_DPW], which is neither the next step
    ([PROCESSING]) nor the listening step just before ([LISTENING_TOKEN]);
    and since no handler reads the step, a call that comes out of turn jumps:
    a confirmed token while the reference is awaited leads straight to
    [CONFIRMING_BOOKING]. *)
Lemma linear_order_fails :
  (reachable atFinalConfirmation
   /\ transitions (handler (EMessage quiet (says (confirmBooking false)))
                           atFinalConfirmation)
                  (bookingStep (st atFinalConfirmation))
      = [(CONFIRMING_BOOKING, LISTENING_DPW)]
   /\ ~ linearOrRollback (confirmBooking false) (CONFIRMING_BOOKING, LISTENING_DPW))
  /\ (reachable listeningForRef
      /\ transitions (handler (EMessage quiet (says (confirmToken true)))
                              listeningForRef)
                     (bookingStep (st listeningForRef))
         = [(LISTENING_DPW, CONFIRMING_BOOKING)]
      /\ ~ linearOrRollback (confirmToken true) (LISTENING_DPW, CONFIRMING_BOOKING))
  /\ ~ followsLinearOrder.
Proof.
  assert (reachable atFinalConfirmation) as Hreach
    by apply reachable_steps, reachable_init.
  assert (~ linearOrRollback (confirmBooking false)
            (CONFIRMING_BOOKING, LISTENING_DPW)) as Hnot
    by (intros [H|[_ H]]; vm_compute in H; discriminate H).
  split; [|split].
  - split; [exact Hreach|]. split; [reflexivity | exact Hnot].
  - split; [apply reachable_steps, reachable_init|].
    split; [reflexivity|].
    intros [H|[H _]]; vm_compute in H; discriminate H.
  - intros Hclaim.
    specialize (Hclaim atFinalConfirmation quiet (confirmBooking false) Hreach).
    apply Hnot. inversion Hclaim as [|? ? Hhead _]. exact Hhead.
Qed.

(** C1, amended: when a function call arrives at the step at which the
    dialogue issues it, every change of step it makes goes to the next step
    of the order, except that a denied reference or token goes back to the
    listening step just before and a refused final confirmation goes back to
    [LISTENING_DPW], the first listening step.  A confirmation always
    changes the step, a denial exactly once.  No handler reads the step:
    arriving at any other state [h'] the same call sets the same steps in
    the same order, so the order is not enforced there. *)
Theorem expected_calls_follow_order
  (h h' : Hook) (env : Env) (fc : FunctionCall) :
  expectedAt fc = Some (bookingStep (st h)) ->
  let moves :=
    transitions (handler (EMessage env (says fc)) h) (bookingStep (st h)) in
  let moves' :=
    transitions (handler (EMessage env (says fc)) h') (bookingStep (st h')) in
  Forall (movesAsAmended fc) moves
  /\ (if isConfirmation fc then moves <> [] else True)
  /\ (if isDenial fc then length moves = 1%nat else True)
  /\ moves'.*2 = moves.*2.
Proof.
  intros Hexp. cbv zeta. cbn [handler]. rewrite !onmessage_says.
  unfold handleFunctionCall, processBooking, andThen, cmds, skip.
  destruct h as [[b r t cn cl g e v] [sp ac oc ms pr an af nst srcs n]].
  destruct h' as [[b' r' t' cn' cl' g' e' v'] [sp' ac' oc' ms' pr' an' af' nst' srcs' n']].
  cbn [st bookingStep refs sessionPromiseRef] in *.
  destruct fc as [arg|[]|arg|[]|[]|name]; cbn in Hexp; try discriminate Hexp;
    injection Hexp as <-.
  all: destruct sp, sp'.
  all: try match goal with
           | |- context [if ?g then _ else _] => destruct g
           end.
  all: cbn; repeat split; try discriminate.
  all: repeat match goal with |- Forall _ _ => constructor end; cbn.
  all: first [reflexivity | split; reflexivity].
Qed.

Lemma expected_calls_follow_order_witness :
  expectedAt (confirmBooking true) = Some (bookingStep (st atFinalConfirmation))
  /\ transitions
       (handler (EMessage quiet (says (confirmBooking true))) atFinalConfirmation)
       (bookingStep (st atFinalConfirmation))
     = [(CONFIRMING_BOOKING, PROCESSING); (PROCESSING, SUCCESS)]
  /\ Forall (movesAsAmended (confirmBooking true))
       [(CONFIRMING_BOOKING, PROCESSING); (PROCESSING, SUCCESS)]
  /\ (transitions
        (handler (EMessage quiet (says (confirmBooking true))) listeningForRef)
        (bookingStep (st listeningForRef))).*2
     = [PROCESSING; SUCCESS].
Proof.
  split; [reflexivity|]. split; [reflexivity|].
  destruct (expected_calls_follow_order atFinalConfirmation listeningForRef quiet
              (confirmBooking true) eq_refl) as (Hall & _ & _ & Hsame).
  split; [exact Hall | exact Hsame].
Defined.

(** The amended order is as tight as its wording: a denial that moved on, a
    refused booking that went anywhere but [LISTENING_DPW], or a granted
    confirmation that went back, would not pass. *)
Example movesAsAmended_excludes :
  ~ movesAsAmended (confirmDpwReference false) (CONFIRMING_DPW, LISTENING_TOKEN)
  /\ ~ movesAsAmended (confirmToken false) (CONFIRMING_TOKEN, CONFIRMING_BOOKING)
  /\ ~ movesAsAmended (confirmBooking false) (CONFIRMING_BOOKING, PROCESSING)
  /\ ~ movesAsAmended (confirmBooking false) (CONFIRMING_BOOKING, LISTENING_TOKEN)
  /\ ~ movesAsAmended (confirmToken true) (CONFIRMING_TOKEN, LISTENING_TOKEN)
  /\ movesAsAmended (confirmToken false) (CONFIRMING_TOKEN, LISTENING_TOKEN)
  /\ movesAsAmended (confirmBooking false) (CONFIRMING_BOOKING, LISTENING_DPW).
Proof.
  repeat split; try reflexivity.
  all: intros H; vm_compute in H;
    first [discriminate H | destruct H as [_ H']; discriminate H'].
Qed.

(** The two steps before the dialogue follow the order as well. *)
Lemma startup_follows_order (h : Hook) :
  sessionPromiseRef (refs h) = false ->
  transitions (startBooking true h) IDLE = [(IDLE, CONNECTING)]
  /\ transitions (onopen h) CONNECTING = [(CONNECTING, LISTENING_DPW)]
  /\ successor IDLE = Some CONNECTING
  /\ successor CONNECTING = Some LISTENING_DPW.
Proof.
  intros Hsp. destruct_hook h. cbn in Hsp. subst. repeat split; reflexivity.
Qed.
(** ** Decimal numerals *)

Lemma of_uint_acc_bounds l : forall acc,
  Z.pos acc * 10 ^ Z.of_nat (Decimal.nb_digits l)
  <= Z.pos (Pos.of_uint_acc l acc)
  < (Z.pos acc + 1) * 10 ^ Z.of_nat (Decimal.nb_digits l).
Proof.
  induction l as [|l IH|l IH|l IH|l IH|l IH|l IH|l IH|l IH|l IH|l IH]; intros acc;
    cbn [Decimal.nb_digits Pos.of_uint_acc].
  1: { cbn. lia. }
  all: rewrite Nat2Z.inj_succ, Z.pow_succ_r by lia.
  all: match goal with |- context [Pos.of_uint_acc _ ?a] => specialize (IH a) end.
  all: match goal with |- context [10 ^ ?e] => assert (0 < 10 ^ e) by (apply Z.pow_pos_nonneg; lia) end.
  all: nia.
Qed.


Lemma to_uint_head p :
  exists acc l,
    Pos.to_uint p <> Decimal.Nil
    /\ 1 <= Z.pos acc <= 9
    /\ Decimal.nb_digits (Pos.to_uint p) = S (Decimal.nb_digits l)
    /\ p = Pos.of_uint_acc l acc.
Proof.
  pose proof (Unsigned.of_to p) as Hof.
  pose proof (Unsigned.to_uint_nonzero p) as Hnz.
  pose proof (Unsigned.to_of (Pos.to_uint p)) as Hto.
  rewrite Hof in Hto. cbn [N.to_uint] in Hto.
  assert (Pos.to_uint p = Decimal.nzhead (Pos.to_uint p)) as Hhead.
  { unfold Decimal.unorm in Hto.
    destruct (Decimal.nzhead (Pos.to_uint p)); congruence. }
  pose proof (nzhead_nonzero (Pos.to_uint p)) as Hno0.
  rewrite <- Hhead in Hno0.
  destruct (Pos.to_uint p) as [|l|l|l|l|l|l|l|l|l|l] eqn:Hd;
    [contradiction | exfalso; exact (Hno0 l eq_refl) | ..];
    cbn [Pos.of_uint] in Hof; injection Hof as Hof;
    eexists _, l; (split; [discriminate|]); (split; [|split; [reflexivity|symmetry; exact Hof]]); lia.
Qed.

Lemma nb_digits_to_uint p k :
  10 ^ Z.of_nat k <= Z.pos p < 10 ^ Z.of_nat (S k) ->
  Decimal.nb_digits (Pos.to_uint p) = S k.
Proof.
  intros [Hlo Hhi].
  destruct (to_uint_head p) as (acc & l & _ & Hacc & -> & Hp).
  pose proof (of_uint_acc_bounds l acc) as Hb. rewrite <- Hp in Hb.
  set (n := Decimal.nb_digits l) in *.
  assert (0 < 10 ^ Z.of_nat n) by (apply Z.pow_pos_nonneg; lia).
  f_equal.
  destruct (Nat.lt_trichotomy n k) as [Hlt|[Heq|Hgt]]; [exfalso|exact Heq|exfalso].
  - assert (10 ^ Z.of_nat (S n) <= 10 ^ Z.of_nat k)
      by (apply Z.pow_le_mono_r; lia).
    rewrite Nat2Z.inj_succ, Z.pow_succ_r in * by lia. nia.
  - assert (10 ^ Z.of_nat (S k) <= 10 ^ Z.of_nat n)
      by (apply Z.pow_le_mono_r; lia).
    nia.
Qed.

Lemma string_of_uint_length d :
  String.length (NilEmpty.string_of_uint d) = Decimal.nb_digits d.
Proof. induction d; cbn; congruence. Qed.

Lemma lit_length s : length (Js.lit s) = String.length s.
Proof.
  unfold Js.lit. rewrite length_fmap.
  induction s; cbn; congruence.
Qed.

Lemma lit_string_of_uint_digits d :
  forallb Js.isDigit (Js.lit (NilEmpty.string_of_uint d)) = true.
Proof. induction d; cbn; try assumption; reflexivity. Qed.

Lemma ofInt_pos p :
  Js.ofInt (Z.pos p) = Js.lit (NilEmpty.string_of_uint (Pos.to_uint p)).
Proof.
  unfold Js.ofInt. cbn [Z.to_int NilZero.string_of_int NilZero.string_of_uint].
  destruct (Pos.to_uint p) eqn:Hd; try reflexivity.
  exfalso. exact (Unsigned.to_uint_nonnil p Hd).
Qed.

Lemma ofInt_digits z : 0 <= z -> forallb Js.isDigit (Js.ofInt z) = true.
Proof.
  destruct z as [|p|p]; intros Hz; [reflexivity| |lia].
  rewrite ofInt_pos. apply lit_string_of_uint_digits.
Qed.

Lemma ofInt_length z k :
  10 ^ Z.of_nat k <= z < 10 ^ Z.of_nat (S k) -> length (Js.ofInt z) = S k.
Proof.
  intros Hz.
  assert (0 < 10 ^ Z.of_nat k) by (apply Z.pow_pos_nonneg; lia).
  destruct z as [|p|p]; try lia.
  rewrite ofInt_pos, lit_length, string_of_uint_length.
  now apply nb_digits_to_uint.
Qed.


Lemma ofInt_length_between z k lo hi :
  lo = 10 ^ Z.of_nat k -> hi = 10 ^ Z.of_nat (S k) ->
  lo <= z < hi -> length (Js.ofInt z) = S k.
Proof. intros -> ->. apply ofInt_length. Qed.

Lemma Qfloor_scaled (r : Q) (n : Z) :
  (0 <= r)%Q -> (r < 1)%Q -> 0 < n ->
  0 <= Qfloor (r * inject_Z n) < n.
Proof.
  intros H0 H1 Hn.
  assert (0 < inject_Z n)%Q as Hn' by (unfold Qlt; cbn; lia).
  split.
  - rewrite <- (Qfloor_Z 0). apply Qfloor_resp_le.
    apply Qmult_le_0_compat; [exact H0|]. now apply Qlt_le_weak.
  - rewrite Zlt_Qlt.
    apply Qle_lt_trans with (r * inject_Z n)%Q; [apply Qfloor_le|].
    rewrite <- (Qmult_1_l (inject_Z n)) at 2.
    apply Qmult_lt_compat_r; assumption.
Qed.

Lemma Qfloor_offset_scaled (r : Q) (a n : Z) :
  (0 <= r)%Q -> (r < 1)%Q -> 0 < n ->
  a <= Qfloor (inject_Z a + r * inject_Z n) < a + n.
Proof.
  intros H0 H1 Hn.
  assert (0 < inject_Z n)%Q as Hn' by (unfold Qlt; cbn; lia).
  assert (0 <= r * inject_Z n)%Q
    by (apply Qmult_le_0_compat; [exact H0 | now apply Qlt_le_weak]).
  assert (r * inject_Z n < inject_Z n)%Q.
  { rewrite <- (Qmult_1_l (inject_Z n)) at 2.
    apply Qmult_lt_compat_r; assumption. }
  split.
  - rewrite <- (Qfloor_Z a) at 1. apply Qfloor_resp_le. lra.
  - rewrite Zlt_Qlt.
    apply Qle_lt_trans with (inject_Z a + r * inject_Z n)%Q; [apply Qfloor_le|].
    rewrite inject_Z_plus. lra.
Qed.

(** ** The shape of the mock record *)

Lemma padStart_two_digits z :
  0 <= z < 100 ->
  length (Js.padStart 2 (Js.lit "0") (Js.ofInt z)) = 2%nat
  /\ forallb Js.isDigit (Js.padStart 2 (Js.lit "0") (Js.ofInt z)) = true.
Proof.
  intros Hz.
  pose proof (ofInt_digits z ltac:(lia)) as Hd.
  destruct (Z.eq_dec z 0) as [->|Hnz]; [split; reflexivity|].
  destruct (Z_lt_le_dec z 10) as [Hlt|Hge].
  - pose proof (ofInt_length_between z 0 1 10 eq_refl eq_refl ltac:(lia)) as Hlen.
    destruct (Js.ofInt z) as [|c [|? ?]]; try discriminate Hlen.
    split; [reflexivity | exact Hd].
  - pose proof (ofInt_length_between z 1 10 100 eq_refl eq_refl ltac:(lia)) as Hlen.
    destruct (Js.ofInt z) as [|c [|c' [|? ?]]]; try discriminate Hlen.
    split; [reflexivity | exact Hd].
Qed.

Lemma randomChar_letter r :
  (0 <= r)%Q -> (r < 1)%Q ->
  exists c, randomChar r = [c] /\ c ∈ letters.
Proof.
  intros H0 H1. unfold randomChar, Js.charAt.
  pose proof (Qfloor_scaled r 26 H0 H1 ltac:(lia)) as Hi.
  change (inject_Z (Z.of_nat (length letters))) with (inject_Z 26).
  destruct (Z.ltb_spec (Qfloor (r * inject_Z 26)) 0) as [Hneg|_]; [lia|].
  destruct (letters !! Z.to_nat (Qfloor (r * inject_Z 26))) as [c|] eqn:Hc.
  - exists c. split; [reflexivity|]. eapply list_elem_of_lookup_2. exact Hc.
  - apply lookup_ge_None in Hc. change (length letters) with 26%nat in Hc. lia.
Qed.

(** X1: with draws from the unit interval the mock container number is
    [DPWU] followed by a seven-digit number, 1000000 to 9999999. *)
Theorem mockContainerNumber_shape (rnd : nat -> Q) :
  unitInterval rnd ->
  exists n,
    1000000 <= n <= 9999999
    /\ mockContainerNumber rnd = Js.lit "DPWU" ++ Js.ofInt n
    /\ length (Js.ofInt n) = 7%nat
    /\ forallb Js.isDigit (Js.ofInt n) = true
    /\ length (mockContainerNumber rnd) = 11%nat.
Proof.
  intros Hrnd. destruct (Hrnd 0%nat) as [H0 H1].
  pose proof (Qfloor_offset_scaled (rnd 0%nat) 1000000 9000000 H0 H1 ltac:(lia))
    as Hn.
  change (inject_Z 1000000 + rnd 0%nat * inject_Z 9000000)%Q
    with (1000000 + rnd 0%nat * 9000000)%Q in Hn.
  set (n := Qfloor (1000000 + rnd 0%nat * 9000000)%Q) in *.
  assert (length (Js.ofInt n) = 7%nat) as Hlen
    by (apply (ofInt_length_between n 6 1000000 10000000 eq_refl eq_refl); lia).
  exists n. split; [lia|]. split; [reflexivity|]. split; [exact Hlen|].
  split; [apply ofInt_digits; lia|].
  unfold mockContainerNumber. fold n. rewrite length_app, Hlen. reflexivity.
Qed.

Lemma mockContainerNumber_shape_witness :
  unitInterval (fun _ => 1 # 2)
  /\ mockContainerNumber (fun _ => 1 # 2) = Js.lit "DPWU5500000"
  /\ length (mockContainerNumber (fun _ => 1 # 2)) = 11%nat.
Proof.
  split; [intros _; split; [discriminate | reflexivity]|].
  split; [reflexivity|].
  destruct (mockContainerNumber_shape (fun _ => 1 # 2)) as (n & _ & _ & _ & _ & Hlen).
  - intros _; split; [discriminate | reflexivity].
  - exact Hlen.
Defined.

(** X2: with draws from the unit interval the mock location is seven
    characters: two digits, a capital letter, two digits, a capital letter
    and a digit. *)
Theorem generateMockLocation_shape (rnd : nat -> Q) :
  unitInterval rnd ->
  exists p1 c2 p3 c4 c5,
    generateMockLocation rnd = p1 ++ [c2] ++ p3 ++ [c4] ++ [c5]
    /\ (length p1 = 2%nat /\ forallb Js.isDigit p1 = true)
    /\ c2 ∈ letters
    /\ (length p3 = 2%nat /\ forallb Js.isDigit p3 = true)
    /\ c4 ∈ letters
    /\ Js.isDigit c5 = true.
Proof.
  intros Hrnd. unfold generateMockLocation. cbv zeta.
  destruct (Hrnd 1%nat) as [H10 H11]. destruct (Hrnd 2%nat) as [H20 H21].
  destruct (Hrnd 3%nat) as [H30 H31]. destruct (Hrnd 4%nat) as [H40 H41].
  destruct (Hrnd 5%nat) as [H50 H51].
  destruct (randomChar_letter _ H20 H21) as (c2 & -> & Hc2).
  destruct (randomChar_letter _ H40 H41) as (c4 & -> & Hc4).
  pose proof (Qfloor_scaled _ 100 H10 H11 ltac:(lia)) as Hz1.
  pose proof (Qfloor_scaled _ 100 H30 H31 ltac:(lia)) as Hz3.
  pose proof (Qfloor_scaled _ 10 H50 H51 ltac:(lia)) as Hz5.
  change (inject_Z 100) with 100%Q in *. change (inject_Z 10) with 10%Q in *.
  set (z5 := Qfloor (rnd 5%nat * 10)%Q) in *.
  assert (exists c5, Js.ofInt z5 = [c5] /\ Js.isDigit c5 = true) as (c5 & -> & Hc5).
  { pose proof (ofInt_digits z5 ltac:(lia)) as Hd.
    destruct (Z.eq_dec z5 0) as [->|Hnz]; [exists 48%N; split; reflexivity|].
    pose proof (ofInt_length_between z5 0 1 10 eq_refl eq_refl ltac:(lia)) as Hlen.
    destruct (Js.ofInt z5) as [|c [|? ?]]; try discriminate Hlen.
    exists c. split; [reflexivity|]. cbn in Hd. now rewrite andb_true_r in Hd. }
  eexists _, c2, _, c4, c5. split; [reflexivity|].
  split; [now apply padStart_two_digits|]. split; [exact Hc2|].
  split; [now apply padStart_two_digits|]. split; [exact Hc4 | exact Hc5].
Qed.

Lemma generateMockLocation_shape_witness :
  unitInterval (fun _ => 1 # 2)
  /\ length (generateMockLocation (fun _ => 1 # 2)) = 7%nat.
Proof.
  split; [intros _; split; [discriminate | reflexivity]|].
  destruct (generateMockLocation_shape (fun _ => 1 # 2))
    as (p1 & c2 & p3 & c4 & c5 & Heq & [H1 _] & _ & [H3 _] & _).
  - intros _; split; [discriminate | reflexivity].
  - rewrite Heq, !length_app, H1, H3. reflexivity.
Defined.

(** X3: with draws from the unit interval the mock gate-in time is an hour
    from 1 to 12 without padding, a colon, a minute from 00 to 59 on two
    digits, and [ PM]. *)
Theorem mockGateInTime_shape (rnd : nat -> Q) :
  unitInterval rnd ->
  exists hour minute mm,
    1 <= hour <= 12 /\ 0 <= minute <= 59
    /\ mm = Js.padStart 2 (Js.lit "0") (Js.ofInt minute)
    /\ mockGateInTime rnd = Js.ofInt hour ++ Js.lit ":" ++ mm ++ Js.lit " PM"
    /\ (length mm = 2%nat /\ forallb Js.isDigit mm = true)
    /\ ((1 <= length (Js.ofInt hour) <= 2)%nat
        /\ forallb Js.isDigit (Js.ofInt hour) = true).
Proof.
  intros Hrnd.
  destruct (Hrnd 6%nat) as [H60 H61]. destruct (Hrnd 7%nat) as [H70 H71].
  pose proof (Qfloor_offset_scaled _ 1 12 H60 H61 ltac:(lia)) as Hh.
  pose proof (Qfloor_scaled _ 60 H70 H71 ltac:(lia)) as Hm.
  change (inject_Z 1 + rnd 6%nat * inject_Z 12)%Q
    with (1 + rnd 6%nat * 12)%Q in Hh.
  change (inject_Z 60) with 60%Q in Hm.
  eexists _, _, _. split; [|split; [|split; [reflexivity|split; [reflexivity|]]]];
    [lia | lia |].
  split; [apply padStart_two_digits; lia|].
  split; [|apply ofInt_digits; lia].
  set (hour := Qfloor (1 + rnd 6%nat * 12)%Q) in *.
  destruct (Z_lt_le_dec hour 10).
  - rewrite (ofInt_length_between hour 0 1 10 eq_refl eq_refl) by lia. lia.
  - rewrite (ofInt_length_between hour 1 10 100 eq_refl eq_refl) by lia. lia.
Qed.

Lemma mockGateInTime_shape_witness :
  unitInterval (fun _ => 1 # 2)
  /\ mockGateInTime (fun _ => 1 # 2) = Js.lit "7:30 PM"
  /\ exists hour mm,
       mockGateInTime (fun _ => 1 # 2)
       = Js.ofInt hour ++ Js.lit ":" ++ mm ++ Js.lit " PM"
       /\ length mm = 2%nat.
Proof.
  split; [intros _; split; [discriminate | reflexivity]|].
  split; [reflexivity|].
  destruct (mockGateInTime_shape (fun _ => 1 # 2))
    as (hour & minute & mm & _ & _ & _ & Heq & [Hlen _] & _).
  - intros _; split; [discriminate | reflexivity].
  - exists hour, mm. split; [exact Heq | exact Hlen].
Defined.

(** ** Function calls and the rest of the hook *)

Lemma handleFunctionCall_refs rnd fc h :
  refs (after (handleFunctionCall rnd fc) h) = refs h.
Proof.
  unfold after, handleFunctionCall, processBooking, andThen, cmds, skip.
  destruct h as [s [sp ac oc ms pr an af nst srcs n]].
  cbn [refs sessionPromiseRef].
  destruct sp, fc as [arg|[]|arg|[]|[]|name];
    try match goal with
        | |- context [if ?g then _ else _] => destruct g
        end; reflexivity.
Qed.

Lemma handleFunctionCalls_refs fcs : forall rnd h,
  refs (after (handleFunctionCalls rnd fcs) h) = refs h.
Proof.
  induction fcs as [|fc fcs IH]; intros rnd h; [reflexivity|].
  cbn [handleFunctionCalls]. now rewrite after_andThen, IH, handleFunctionCall_refs.
Qed.

(** X4: function calls touch none of the ref cells (queue, cursor, handles),
    and a message without function calls touches none of the state cells. *)
Theorem calls_and_audio_are_separate (h : Hook) (env : Env) (message : Message) :
  refs (step (EMessage env (mkMessage None (functionCalls message) false)) h)
  = refs h
  /\ st (step (EMessage env (mkMessage (audio message) [] (interrupted message))) h)
     = st h.
Proof.
  split.
  - unfold step, handler, onmessage. cbn [audio functionCalls interrupted].
    rewrite !after_andThen. cbn [after skip run fold_left].
    apply handleFunctionCalls_refs.
  - unfold step, handler, onmessage. cbn [audio functionCalls interrupted].
    rewrite !after_andThen.
    assert (forall x, st (after (if interrupted message then stopPlayback else skip) x)
                      = st x) as ->
      by (intros x; destruct (interrupted message);
          [apply stopPlayback_st | reflexivity]).
    cbn [handleFunctionCalls]. cbn [after skip run fold_left].
    destruct (audio message); [apply playAudio_st | reflexivity].
Qed.

Lemma toolResponses_app cs1 cs2 :
  toolResponses (cs1 ++ cs2) = toolResponses cs1 ++ toolResponses cs2.
Proof.
  induction cs1 as [|c cs1 IH]; [reflexivity|].
  destruct c; cbn [app toolResponses]; rewrite IH; reflexivity.
Qed.

Lemma handleFunctionCall_toolResponses rnd fc h :
  toolResponses (handleFunctionCall rnd fc h)
  = if sessionPromiseRef (refs h) then [fcName fc] else [].
Proof.
  unfold handleFunctionCall, processBooking, andThen, cmds, skip.
  destruct (sessionPromiseRef (refs h)), fc as [arg|[]|arg|[]|[]|name];
    try match goal with
        | |- context [if ?g then _ else _] => destruct g
        end; reflexivity.
Qed.

Lemma handleFunctionCalls_toolResponses fcs : forall rnd h,
  toolResponses (handleFunctionCalls rnd fcs h)
  = if sessionPromiseRef (refs h) then fcName <$> fcs else [].
Proof.
  induction fcs as [|fc fcs IH]; intros rnd h.
  - now destruct (sessionPromiseRef (refs h)).
  - cbn [handleFunctionCalls]. unfold andThen.
    rewrite toolResponses_app, IH, handleFunctionCall_toolResponses.
    fold (after (handleFunctionCall rnd fc) h).
    rewrite handleFunctionCall_refs.
    now destruct (sessionPromiseRef (refs h)).
Qed.

Lemma playAudio_session now d h :
  sessionPromiseRef (refs (after (playAudio now d) h)) = sessionPromiseRef (refs h)
  /\ toolResponses (playAudio now d h) = [].
Proof.
  destruct h as [s [sp ac oc ms pr an af nst srcs n]].
  destruct oc; split; reflexivity.
Qed.

(** ** Stored numbers through the form of [App] *)

Ltac each_cmd :=
  repeat match goal with |- Forall _ _ => constructor end; try exact I.

Lemma run_keepsWellFormed cs : forall h,
  Forall keepsWellFormed cs ->
  storedWellFormed (st h) -> storedWellFormed (st (run cs h)).
Proof.
  induction cs as [|c cs IH]; intros h Hall Hh; [exact Hh|].
  inversion Hall as [|? ? Hc Hcs]; subst.
  cbn [run fold_left]. apply (IH _ Hcs). clear IH Hall Hcs.
  destruct h as [[b r t cn cl g e v] rf]. destruct Hh as [Hr Ht].
  destruct c; cbn in *; split; assumption.
Qed.

Lemma andThen_keepsWellFormed (p q : Proc) h :
  Forall keepsWellFormed (p h) ->
  (forall h', Forall keepsWellFormed (q h')) ->
  Forall keepsWellFormed ((p ;; q) h).
Proof. intros Hp Hq. unfold andThen. apply Forall_app. split; [exact Hp | apply Hq]. Qed.

Lemma handleFunctionCall_keepsWellFormed rnd fc h :
  Forall keepsWellFormed (handleFunctionCall rnd fc h).
Proof.
  unfold handleFunctionCall, processBooking, andThen, cmds, skip.
  apply Forall_app. split.
  { destruct (sessionPromiseRef (refs h)); each_cmd. }
  destruct fc as [arg|[]|arg|[]|[]|name]; cbn [app];
    try (each_cmd; left; reflexivity).
  - destruct (Js.truthy _ && Js.testDigits 7 _) eqn:Hg; [|each_cmd].
    apply andb_true_iff in Hg as [_ Hg].
    each_cmd. right. exact Hg.
  - destruct (Js.truthy _ && Js.testDigits 6 _) eqn:Hg; [|each_cmd].
    apply andb_true_iff in Hg as [_ Hg].
    each_cmd. right. exact Hg.
Qed.

Lemma handleFunctionCalls_keepsWellFormed fcs : forall rnd h,
  Forall keepsWellFormed (handleFunctionCalls rnd fcs h).
Proof.
  induction fcs as [|fc fcs IH]; intros rnd h; [each_cmd|].
  cbn [handleFunctionCalls]. apply andThen_keepsWellFormed.
  - apply handleFunctionCall_keepsWellFormed.
  - intros h'. apply IH.
Qed.

Lemma playAudio_keepsWellFormed now d h :
  Forall keepsWellFormed (playAudio now d h).
Proof.
  destruct h as [s [sp ac oc ms pr an af nst srcs n]].
  destruct oc; each_cmd.
Qed.

Lemma cleanup_keepsWellFormed h : Forall keepsWellFormed (cleanup h).
Proof. destruct_hook h. destruct af; each_cmd. Qed.

Lemma isInputValid_testDigits b number :
  isInputValid b number = true ->
  Js.testDigits (requiredLength b) number = true.
Proof.
  unfold isInputValid, Js.testDigitsPlus, Js.testDigits.
  intros [Hlen [_ Hall]%andb_true_iff]%andb_true_iff.
  now rewrite Hlen, Hall.
Qed.

Lemma handler_keepsWellFormed e h :
  offeredByApp h e -> Forall keepsWellFormed (handler e h).
Proof.
  intros Hok.
  destruct e as [granted| |env message| | |number| |now d|id|average];
    cbn [handler].
  - unfold startBooking. destruct (sessionPromiseRef (refs h)); [each_cmd|].
    apply andThen_keepsWellFormed; [each_cmd; left; reflexivity|].
    intros h'. destruct granted; [each_cmd|].
    apply andThen_keepsWellFormed; [each_cmd|].
    apply cleanup_keepsWellFormed.
  - each_cmd.
  - unfold onmessage. apply andThen_keepsWellFormed.
    { destruct (audio message); [apply playAudio_keepsWellFormed | each_cmd]. }
    intros h'. apply andThen_keepsWellFormed.
    { apply handleFunctionCalls_keepsWellFormed. }
    intros h''. destruct (interrupted message); each_cmd.
  - unfold onerror. apply andThen_keepsWellFormed; [each_cmd|].
    apply cleanup_keepsWellFormed.
  - apply cleanup_keepsWellFormed.
  - cbn in Hok. apply isInputValid_testDigits in Hok.
    unfold submitManualInput. apply andThen_keepsWellFormed; [each_cmd|].
    intros h'. destruct (bookingStep (st h)); each_cmd;
      right; exact Hok.
  - unfold reset. apply andThen_keepsWellFormed; [apply cleanup_keepsWellFormed|].
    intros h'. each_cmd; left; reflexivity.
  - apply playAudio_keepsWellFormed.
  - each_cmd.
  - unfold updateVolume. destruct (analyserNodeRef (refs h)); each_cmd.
Qed.

(** X7: when manual entry goes through the form of [App], the stored
    reference number is at every moment empty or exactly seven digits and
    the stored token empty or exactly six digits, whatever the session
    delivers. *)
Theorem stored_numbers_well_formed (h : Hook) :
  reachableWith offeredByApp h -> storedWellFormed (st h).
Proof.
  induction 1 as [|e h Hreach IH Hok].
  - split; left; reflexivity.
  - unfold step, after. apply run_keepsWellFormed; [|exact IH].
    now apply handler_keepsWellFormed.
Qed.

Lemma stored_numbers_well_formed_witness :
  reachableWith offeredByApp
    (step (ESubmitManualInput sampleRef) listeningForRef)
  /\ dpwRef (st (step (ESubmitManualInput sampleRef) listeningForRef)) = sampleRef
  /\ storedWellFormed (st (step (ESubmitManualInput sampleRef) listeningForRef)).
Proof.
  assert (reachableWith offeredByApp
            (step (ESubmitManualInput sampleRef) listeningForRef)) as Hreach.
  { apply reachableWith_step; [|reflexivity].
    apply (reachableWith_step _ EOpen); [|exact I].
    apply (reachableWith_step _ (EStartBooking true)); [|exact I].
    apply reachableWith_init. }
  split; [exact Hreach|]. split; [reflexivity|].
  apply (stored_numbers_well_formed _ Hreach).
Defined.

(** Without the form the hook stores whatever it is handed. *)
Example hook_alone_stores_anything :
  dpwRef (st (step (ESubmitManualInput (Js.lit "x")) listeningForRef))
  = Js.lit "x".
Proof. reflexivity. Qed.

(** ** The playback queue *)

Lemma queueInOrder_same r r' : sameQueue r r' -> queueInOrder r -> queueInOrder r'.
Proof.
  intros (Hc & Hs & Hn) [H1 H2]. unfold queueInOrder.
  rewrite Hc, Hs, Hn. split; assumption.
Qed.

Lemma queueInOrder_cleared r :
  audioSourcesRef r = ∅ -> queueInOrder r.
Proof.
  intros Hs. unfold queueInOrder. rewrite Hs.
  split; intros; simplify_map_eq.
Qed.

Lemma queueInOrder_playAudio now d h :
  (0 <= d)%Q ->
  queueInOrder (refs h) -> queueInOrder (refs (after (playAudio now d) h)).
Proof.
  intros Hd [H1 H2].
  destruct (playAudio_refs now d h) as (Hcur & Hsrc & Hcnt). cbv zeta in *.
  unfold queueInOrder. rewrite Hcur, Hsrc, Hcnt.
  pose proof (Q.le_max_l (nextStartTimeRef (refs h)) now) as Hmax.
  set (start := Qmax (nextStartTimeRef (refs h)) now) in *.
  split.
  - intros i s. rewrite lookup_insert. case_decide as Hi.
    + intros [= <-]. cbn [startAt duration]. split; [lia | apply Qle_refl].
    + intros Hs. destruct (H1 i s Hs) as [Hlt Hend]. split; [lia | lra].
  - intros i j si sj Hij. rewrite !lookup_insert.
    case_decide as Hi; case_decide as Hj.
    + lia.
    + intros _ Hsj. destruct (H1 j sj Hsj) as [Hlt _]. lia.
    + intros Hsi [= <-]. cbn [startAt]. destruct (H1 i si Hsi) as [_ Hend]. lra.
    + apply H2. exact Hij.
Qed.

Lemma queueInOrder_delete id r :
  queueInOrder r ->
  queueInOrder (execRefs (deleteSource id) r).
Proof.
  intros [H1 H2]. destruct r as [sp ac oc ms pr an af nst srcs n].
  unfold queueInOrder in *. cbn in *. split.
  - intros i s Hs. apply lookup_delete_Some in Hs as [_ Hs]. now apply H1.
  - intros i j si sj Hij Hsi Hsj.
    apply lookup_delete_Some in Hsi as [_ Hsi].
    apply lookup_delete_Some in Hsj as [_ Hsj].
    now apply (H2 i j).
Qed.

Lemma stopPlayback_queue h : queueInOrder (refs (after stopPlayback h)).
Proof. apply queueInOrder_cleared. apply stopPlayback_clears. Qed.

Lemma cleanup_queue h : audioSourcesRef (refs (after cleanup h)) = ∅.
Proof. destruct_hook h. destruct af; reflexivity. Qed.

Lemma step_queue e h :
  nonnegDurations h e ->
  queueInOrder (refs h) -> queueInOrder (refs (step e h)).
Proof.
  intros Hok Hinv. unfold step.
  destruct e as [granted| |env message| | |number| |now d|id|average];
    cbn [handler]; cbn in Hok.
  - destruct h as [s [sp ac oc ms pr an af nst srcs n]].
    destruct sp; [exact Hinv|].
    destruct granted; [apply (queueInOrder_same _ _ ltac:(repeat split) Hinv)|].
    apply queueInOrder_cleared. destruct s, af; reflexivity.
  - apply (queueInOrder_same (refs h)); [|exact Hinv].
    destruct_hook h. repeat split.
  - unfold onmessage. rewrite !after_andThen.
    destruct (interrupted message); [apply stopPlayback_queue|].
    cbn [after skip run fold_left].
    change (queueInOrder (refs (after (handleFunctionCalls (random env)
                                         (functionCalls message))
              (after (match audio message with
                      | Some d => playAudio (currentTime env) d
                      | None => skip
                      end) h)))).
    rewrite handleFunctionCalls_refs.
    destruct (audio message); [now apply queueInOrder_playAudio | exact Hinv].
  - unfold onerror. rewrite after_andThen.
    apply queueInOrder_cleared, cleanup_queue.
  - apply queueInOrder_cleared, cleanup_queue.
  - apply queueInOrder_cleared.
    destruct_hook h.
    match goal with |- context [mkState ?b _ _ _ _ _ _ _] => destruct b end;
      reflexivity.
  - apply queueInOrder_cleared. destruct_hook h. destruct af; reflexivity.
  - now apply queueInOrder_playAudio.
  - destruct h as [s r]. destruct s. apply (queueInOrder_delete id r Hinv).
  - apply (queueInOrder_same (refs h)); [|exact Hinv].
    destruct h as [s [sp ac oc ms pr an af nst srcs n]].
    destruct s, an; repeat split.
Qed.

(** X8: in every state the hook reaches with buffers of non-negative
    duration, the sources waiting in the queue do not overlap (each ends
    before the next one created starts) and the cursor stands at or after
    the end of every one of them. *)
Theorem queue_in_order (h : Hook) :
  reachableWith nonnegDurations h -> queueInOrder (refs h).
Proof.
  induction 1 as [|e h Hreach IH Hok].
  - apply queueInOrder_cleared. reflexivity.
  - now apply step_queue.
Qed.

Lemma queue_in_order_witness :
  let h := steps [ESpeechAudio (3 # 2) (1 # 2); ESpeechAudio (7 # 4) (1 # 4)]
                 listeningForRef in
  reachableWith nonnegDurations h
  /\ size (audioSourcesRef (refs h)) = 2%nat
  /\ queueInOrder (refs h).
Proof.
  cbv zeta.
  assert (reachableWith nonnegDurations
            (steps [ESpeechAudio (3 # 2) (1 # 2); ESpeechAudio (7 # 4) (1 # 4)]
                   listeningForRef)) as Hreach.
  { apply (reachableWith_step _ (ESpeechAudio (7 # 4) (1 # 4))); [|discriminate].
    apply (reachableWith_step _ (ESpeechAudio (3 # 2) (1 # 2))); [|discriminate].
    apply (reachableWith_step _ EOpen); [|exact I].
    apply (reachableWith_step _ (EStartBooking true)); [|exact I].
    apply reachableWith_init. }
  split; [exact Hreach|]. split; [reflexivity|].
  apply (queue_in_order _ Hreach).
Defined.

(** ** Whole dialogues *)

Lemma testDigits_truthy n s :
  Js.testDigits (S n) s = true -> Js.truthy s = true.
Proof.
  unfold Js.testDigits. intros [Hlen _]%andb_true_iff.
  destruct s; [discriminate Hlen | reflexivity].
Qed.

(** X9: a dialogue without denial, with any reference payload that holds
    seven digits and any token payload that holds six once white space is
    dropped, ends at [SUCCESS] with exactly those digits stored, a populated
    record and no error. *)
Theorem straight_through_succeeds (env : Env) (refPayload tokenPayload : Js.str) :
  Js.testDigits 7 (Js.stripSpaces refPayload) = true ->
  Js.testDigits 6 (Js.stripSpaces tokenPayload) = true ->
  let h := steps (straightThrough env refPayload tokenPayload) init in
  bookingStep (st h) = SUCCESS
  /\ dpwRef (st h) = Js.stripSpaces refPayload
  /\ token (st h) = Js.stripSpaces tokenPayload
  /\ populated h
  /\ error (st h) = None.
Proof.
  intros Href Htok. cbv zeta.
  unfold straightThrough, steps. cbn [fold_left]. rewrite !step_says.
  unfold after, handleFunctionCall, andThen. rewrite !orEmpty_Some.
  rewrite Href, Htok, (testDigits_truthy _ _ Href), (testDigits_truthy _ _ Htok).
  repeat split; try reflexivity.
  - apply mockContainerNumber_nonempty.
  - apply generateMockLocation_nonempty.
  - apply mockGateInTime_nonempty.
Qed.

Lemma straight_through_succeeds_witness :
  Js.testDigits 7 (Js.stripSpaces (Js.lit "12 34 567")) = true
  /\ Js.testDigits 6 (Js.stripSpaces (Js.lit "6 5 4 3 2 1")) = true
  /\ let h := steps (straightThrough quiet (Js.lit "12 34 567")
                       (Js.lit "6 5 4 3 2 1")) init in
     bookingStep (st h) = SUCCESS
     /\ dpwRef (st h) = sampleRef /\ token (st h) = sampleToken.
Proof.
  split; [reflexivity|]. split; [reflexivity|].
  destruct (straight_through_succeeds quiet (Js.lit "12 34 567")
              (Js.lit "6 5 4 3 2 1") eq_refl eq_refl) as (Hs & Hr & Ht & _).
  split; [exact Hs|]. split; [exact Hr | exact Ht].
Defined.

(** X10: wherever the hook stands, [reset] followed by a granted
    [startBooking] and the opening of the session gives the state cells and
    handles of a first start: nothing of the earlier booking is left. *)
Theorem reset_rearms (h : Hook) :
  let h' := steps [EReset; EStartBooking true; EOpen] h in
  st h' = st listeningForRef
  /\ refs h' = mkRefs true true false true true true true 0%Q ∅
                      (sourceCount (refs h)).
Proof.
  cbv zeta. destruct_hook h. destruct af; split; reflexivity.
Qed.


(** X12: tearing down twice is tearing down once: [cleanup] after
    [cleanup], [reset] after [reset] and the close that follows a session
    error all leave the hook as the first of the two left it. *)
Theorem teardown_idempotent (h : Hook) :
  after cleanup (after cleanup h) = after cleanup h
  /\ step EReset (step EReset h) = step EReset h
  /\ step EClose (step EError h) = step EError h.
Proof.
  destruct_hook h. destruct af; repeat split; reflexivity.
Qed.

(** ** The view of [App] *)

Lemma stripNonDigits_digits s : forallb Js.isDigit (stripNonDigits s) = true.
Proof.
  unfold stripNonDigits. induction s as [|c s IH]; [reflexivity|].
  cbn [List.filter]. destruct (Js.isDigit c) eqn:Hc; [|exact IH].
  cbn [forallb]. now rewrite Hc, IH.
Qed.

Lemma manualInputChange_ok b value manualInput :
  forallb Js.isDigit manualInput = true /\ (length manualInput <= requiredLength b)%nat ->
  forallb Js.isDigit (manualInputChange b value manualInput) = true
  /\ (length (manualInputChange b value manualInput) <= requiredLength b)%nat.
Proof.
  intros Hok. unfold manualInputChange. cbv zeta.
  destruct (Nat.leb_spec (length (stripNonDigits value)) (requiredLength b));
    [|exact Hok].
  split; [apply stripNonDigits_digits | assumption].
Qed.

Lemma typed_field_ok (b : BookingStep) (values : list Js.str) :
  forallb Js.isDigit (typed b values) = true
  /\ (length (typed b values) <= requiredLength b)%nat.
Proof.
  assert (forall start,
            forallb Js.isDigit start = true /\ (length start <= requiredLength b)%nat ->
            let s := fold_left (fun m v => manualInputChange b v m) values start in
            forallb Js.isDigit s = true /\ (length s <= requiredLength b)%nat)
    as Hgen.
  { induction values as [|v values IH]; intros start Hstart; [exact Hstart|].
    cbn [fold_left]. apply IH. now apply manualInputChange_ok. }
  apply (Hgen []). split; [reflexivity | cbn; lia].
Qed.

Lemma isInputValid_of_digits b s :
  forallb Js.isDigit s = true ->
  isInputValid b s = (length s =? requiredLength b)%nat.
Proof.
  intros Hd. unfold isInputValid, Js.testDigitsPlus. rewrite Hd, andb_true_r.
  destruct (Nat.eqb_spec (length s) (requiredLength b)) as [Hlen|_];
    [|reflexivity].
  destruct s; [destruct b; discriminate Hlen | reflexivity].
Qed.

(** X13: whatever is typed or pasted into the manual field, it holds
    digits only and never more than the step requires; and for such a
    content the submit button is enabled exactly when the length is the
    required one. *)
Theorem manual_field_digits_only (b : BookingStep) (values : list Js.str) :
  forallb Js.isDigit (typed b values) = true
  /\ (length (typed b values) <= requiredLength b)%nat
  /\ (isInputValid b (typed b values) = true
      <-> length (typed b values) = requiredLength b).
Proof.
  destruct (typed_field_ok b values) as [Hd Hl].
  split; [exact Hd|]. split; [exact Hl|].
  rewrite (isInputValid_of_digits _ _ Hd). apply Nat.eqb_eq.
Qed.

Example paste_with_separators :
  typed LISTENING_DPW [Js.lit "12"; Js.lit "123-45 67"; Js.lit "123456789"]
  = Js.lit "1234567".
Proof. reflexivity. Qed.

(** X14: at the step that listens for the reference, submitting the form
    stores the field as the reference number when it holds seven digits and
    does nothing at all, not even stop the playback, when it holds fewer. *)
Theorem manual_submit_through_form (h : Hook) (values : list Js.str) :
  bookingStep (st h) = LISTENING_DPW ->
  let field := typed LISTENING_DPW values in
  let h' := after (handleManualSubmit field) h in
  if (length field =? 7)%nat
  then dpwRef (st h') = field
       /\ Js.testDigits 7 (dpwRef (st h')) = true
       /\ bookingStep (st h') = CONFIRMING_DPW
  else h' = h.
Proof.
  intros Hb. cbv zeta.
  destruct (typed_field_ok LISTENING_DPW values) as [Hd _].
  set (field := typed LISTENING_DPW values) in *.
  unfold after, handleManualSubmit.
  rewrite Hb, (isInputValid_of_digits _ _ Hd).
  change (requiredLength LISTENING_DPW) with 7%nat.
  destruct (Nat.eqb_spec (length field) 7) as [Hlen|Hlen]; [|reflexivity].
  assert (Js.testDigits 7 field = true) as Htest
    by (unfold Js.testDigits; now rewrite Hlen, Hd).
  destruct_hook h. cbn in Hb. subst. repeat split; try reflexivity. exact Htest.
Qed.

Lemma manual_submit_through_form_witness :
  bookingStep (st listeningForRef) = LISTENING_DPW
  /\ dpwRef (st (after (handleManualSubmit
                          (typed LISTENING_DPW [Js.lit "123-45 67"]))
                       listeningForRef)) = Js.lit "1234567"
  /\ after (handleManualSubmit (typed LISTENING_DPW [Js.lit "123"]))
           listeningForRef = listeningForRef.
Proof.
  split; [reflexivity|]. split.
  - pose proof (manual_submit_through_form listeningForRef [Js.lit "123-45 67"]
                  eq_refl) as H.
    cbv zeta in H. destruct H as [H _]. exact H.
  - exact (manual_submit_through_form listeningForRef [Js.lit "123"] eq_refl).
Defined.

(** X15: the status line is never empty; after a session error it is the
    connection message and after a refused microphone the microphone
    message. *)
Theorem status_line_never_empty (h : Hook) :
  statusOf h <> []
  /\ statusOf (step EError h) = connectionErrorMessage
  /\ (sessionPromiseRef (refs h) = false ->
      statusOf (step (EStartBooking false) h) = microphoneErrorMessage).
Proof.
  split; [|split].
  - unfold statusOf, getStatusMessage.
    destruct (bookingStep (st h)); try (vm_compute; discriminate).
    destruct (error (st h)) as [[|c e]|]; vm_compute; discriminate.
  - destruct_hook h. destruct af; reflexivity.
  - intros Hsp. destruct_hook h. cbn in Hsp. subst. destruct af; reflexivity.
Qed.

Lemma status_line_never_empty_witness :
  sessionPromiseRef (refs init) = false
  /\ statusOf (step (EStartBooking false) init) = microphoneErrorMessage
  /\ statusOf init <> [].
Proof.
  split; [reflexivity|].
  destruct (status_line_never_empty init) as (Hne & _ & Hmic).
  split; [exact (Hmic eq_refl) | exact Hne].
Defined.

(** X16: the two buttons that end a booking are never on screen together,
    and once the splash screen is gone exactly one of them is at every step
    but [IDLE]; the manual field is on screen exactly when the volume
    indicator is, and then the listening animation runs; the microphone icon
    and the captured numbers are on screen exactly while [Cancel] can be. *)
Theorem controls_by_step (b : BookingStep) (showSplash : bool) :
  showCancel showSplash b && showStartNewBooking b = false
  /\ showCancel false b || showStartNewBooking b = negb (bool_decide (b = IDLE))
  /\ showManualInput b = showVolumeIndicator b
  /\ (showVolumeIndicator b = true -> isListening b = true)
  /\ showMicIcon b = isBookingInProgress b.
Proof.
  destruct b, showSplash; repeat split; try reflexivity; intros H; discriminate H.
Qed.

Lemma controls_by_step_witness :
  showVolumeIndicator LISTENING_TOKEN = true
  /\ isListening LISTENING_TOKEN = true.
Proof.
  split; [reflexivity|].
  destruct (controls_by_step LISTENING_TOKEN false) as (_ & _ & _ & H & _).
  apply H. reflexivity.
Defined.

(** ** The volume indicator *)

Lemma clampedVolume_range volume :
  (0 <= Qmin (Qmax volume 0) (3 # 2))%Q /\ (Qmin (Qmax volume 0) (3 # 2) <= 3 # 2)%Q.
Proof.
  split; [|apply Q.le_min_r].
  apply Q.min_glb; [apply Q.le_max_r | discriminate].
Qed.

Lemma clampedVolume_mono v v' :
  (v <= v')%Q ->
  (Qmin (Qmax v 0) (3 # 2) <= Qmin (Qmax v' 0) (3 # 2))%Q.
Proof.
  intros Hv. apply Q.min_le_compat_r. apply Q.max_le_compat_r. exact Hv.
Qed.

(** The share of the full height a bar at distance [d] from the centre
    gets. *)
Lemma heightFactor_range barCount d :
  0 < barCount -> 0 <= d < barCount ->
  (0 < inject_Z (barCount - d)%Z / inject_Z barCount)%Q
  /\ (inject_Z (barCount - d)%Z / inject_Z barCount <= 1)%Q.
Proof.
  intros Hn Hd.
  assert (0 < inject_Z barCount)%Q as Hn' by (unfold Qlt; cbn; lia).
  split.
  - apply Qlt_shift_div_l; [exact Hn'|]. rewrite Qmult_0_l.
    unfold Qlt; cbn; lia.
  - apply Qle_shift_div_r; [exact Hn'|]. rewrite Qmult_1_l.
    rewrite <- Zle_Qle. lia.
Qed.

Lemma heightFactor_mono barCount d d' :
  0 < barCount -> d <= d' ->
  (inject_Z (barCount - d')%Z / inject_Z barCount
   <= inject_Z (barCount - d)%Z / inject_Z barCount)%Q.
Proof.
  intros Hn Hd.
  assert (0 < inject_Z barCount)%Q as Hn' by (unfold Qlt; cbn; lia).
  unfold Qdiv. apply Qmult_le_compat_r.
  - rewrite <- Zle_Qle. lia.
  - apply Qlt_le_weak, Qinv_lt_0_compat, Hn'.
Qed.

Lemma distance_in_row barCount index :
  0 < barCount -> 0 <= index < barCount ->
  0 <= Z.abs (index - barCount / 2) < barCount.
Proof.
  intros Hn Hi.
  assert (0 <= barCount / 2 < barCount) by (split; [apply Z.div_pos; lia|apply Z.div_lt; lia]).
  lia.
Qed.

(** X17: for a row of at least one bar, every bar is between 2 and 150
    percent high whatever the volume (negative, huge), a louder volume never
    makes a bar shorter, and the opacity stays between 0.4 and 1. *)
Theorem bar_height_bounds (barCount index : Z) (volume volume' : Q) :
  0 < barCount -> 0 <= index < barCount ->
  (2 <= getBarHeight barCount volume index)%Q
  /\ (getBarHeight barCount volume index <= 150)%Q
  /\ ((volume <= volume')%Q ->
      (getBarHeight barCount volume index
       <= getBarHeight barCount volume' index)%Q)
  /\ ((4 # 10 <= barOpacity volume)%Q /\ (barOpacity volume <= 1)%Q).
Proof.
  intros Hn Hi. unfold getBarHeight. cbv zeta.
  pose proof (distance_in_row barCount index Hn Hi) as Hd.
  set (d := Z.abs (index - barCount / 2)) in *.
  destruct (heightFactor_range barCount d Hn Hd) as [Hf0 Hf1].
  set (f := (inject_Z (barCount - d)%Z / inject_Z barCount)%Q) in *.
  destruct (clampedVolume_range volume) as [Hc0 Hc1].
  split; [apply Q.le_max_r|].
  split.
  - apply Q.max_lub; [|discriminate].
    set (c := Qmin (Qmax volume 0) (3 # 2)) in *.
    assert (c * f <= (3 # 2) * 1)%Q
      by (apply Qmult_le_compat_nonneg; split; try assumption;
          now apply Qlt_le_weak).
    lra.
  - split.
    + intros Hv. apply Q.max_le_compat_r.
      pose proof (clampedVolume_mono volume volume' Hv) as Hc.
      set (c := Qmin (Qmax volume 0) (3 # 2)) in *.
      set (c' := Qmin (Qmax volume' 0) (3 # 2)) in *.
      assert (c * f <= c' * f)%Q
        by (apply Qmult_le_compat_r; [exact Hc | now apply Qlt_le_weak]).
      lra.
    + unfold barOpacity. split; [|apply Q.le_min_r].
      apply Q.min_glb; [apply Q.le_max_r | discriminate].
Qed.

Lemma bar_height_bounds_witness :
  0 < 7 /\ 0 <= 3 < 7
  /\ getBarHeight 7 1 3 = Qmax (1 * (7 / 7) * 100) 2
  /\ (2 <= getBarHeight 7 1 3)%Q /\ (getBarHeight 7 1 3 <= 150)%Q.
Proof.
  split; [lia|]. split; [lia|]. split; [reflexivity|].
  destruct (bar_height_bounds 7 3 1 1) as (Hlo & Hhi & _); [lia | lia |].
  split; [exact Hlo | exact Hhi].
Defined.

(** X18: a bar is at least as high as any bar farther from the centre, so
    the centre bar is the highest; bars at the same distance on either side
    of the centre are equally high, and with an odd number of bars the whole
    row is its own mirror image. *)
Theorem bar_heights_peak_at_centre (barCount index index' k : Z) (volume : Q) :
  0 < barCount -> 0 <= index < barCount ->
  Z.abs (index - barCount / 2) <= Z.abs (index' - barCount / 2) ->
  (getBarHeight barCount volume index' <= getBarHeight barCount volume index)%Q
  /\ getBarHeight barCount volume (barCount / 2 - k)
     = getBarHeight barCount volume (barCount / 2 + k)
  /\ (Z.odd barCount = true ->
      getBarHeight barCount volume (barCount - 1 - index)
      = getBarHeight barCount volume index).
Proof.
  intros Hn Hi Hdist. split; [|split].
  - unfold getBarHeight. cbv zeta. apply Q.max_le_compat_r.
    destruct (clampedVolume_range volume) as [Hc0 _].
    set (c := Qmin (Qmax volume 0) (3 # 2)) in *.
    pose proof (heightFactor_mono barCount _ _ Hn Hdist) as Hf.
    set (f := (inject_Z (barCount - Z.abs (index - barCount / 2))%Z
               / inject_Z barCount)%Q) in *.
    set (f' := (inject_Z (barCount - Z.abs (index' - barCount / 2))%Z
                / inject_Z barCount)%Q) in *.
    assert (c * f' <= c * f)%Q
      by (rewrite !(Qmult_comm c); apply Qmult_le_compat_r; assumption).
    lra.
  - unfold getBarHeight. cbv zeta.
    replace (Z.abs (barCount / 2 - k - barCount / 2))
      with (Z.abs (barCount / 2 + k - barCount / 2)) by lia.
    reflexivity.
  - intros Hodd. unfold getBarHeight. cbv zeta.
    replace (Z.abs (barCount - 1 - index - barCount / 2))
      with (Z.abs (index - barCount / 2)); [reflexivity|].
    rewrite (Z.div_mod barCount 2) at 2 by lia.
    rewrite <- Z.bit0_mod, Z.bit0_odd, Hodd. cbn [Z.b2z]. lia.
Qed.

Lemma bar_heights_peak_at_centre_witness :
  0 < 7 /\ 0 <= 3 < 7 /\ Z.abs (3 - 7 / 2) <= Z.abs (0 - 7 / 2)
  /\ (getBarHeight 7 1 0 <= getBarHeight 7 1 3)%Q
  /\ getBarHeight 7 1 6 = getBarHeight 7 1 0.
Proof.
  split; [lia|]. split; [lia|]. split; [discriminate|].
  split.
  - destruct (bar_heights_peak_at_centre 7 3 0 0 1) as (H & _);
      [lia | lia | discriminate | exact H].
  - destruct (bar_heights_peak_at_centre 7 0 0 0 1) as (_ & _ & H);
      [lia | lia | discriminate | exact (H eq_refl)].
Defined.

(** With an even number of bars the row is not symmetric: the centre is the
    bar right of the middle. *)
Example even_row_not_symmetric :
  Qred (getBarHeight 4 1 0) = 50%Q /\ Qred (getBarHeight 4 1 3) = 75%Q.
Proof. split; reflexivity. Qed.

Lemma fold_add_bounds (l : list Z) : forall acc,
  Forall (fun b => 0 <= b <= 255) l ->
  acc <= fold_left Z.add l acc <= acc + 255 * Z.of_nat (length l).
Proof.
  induction l as [|b l IH]; intros acc Hall; [cbn; lia|].
  inversion Hall as [|? ? Hb Hl]; subst.
  cbn [fold_left length]. specialize (IH (acc + b) Hl). lia.
Qed.

(** X19: with at least one frequency byte, each between 0 and 255, the
    volume that [updateVolume] stores lies between 0 and 255/128, inside the
    range 0 to 2 its comment promises; with the analyser gone it stores
    nothing. *)
Theorem volume_normalised (h : Hook) (dataArray : list Z) :
  dataArray <> [] ->
  Forall (fun b => 0 <= b <= 255) dataArray ->
  let h' := step (EAnimationFrame (frequencyAverage dataArray)) h in
  if analyserNodeRef (refs h)
  then (0 <= volume (st h'))%Q /\ (volume (st h') <= 255 # 128)%Q
       /\ (volume (st h') < 2)%Q
  else h' = h.
Proof.
  intros Hne Hall. cbv zeta.
  destruct h as [[b r t cn cl g e v] [sp ac oc ms pr an af nst srcs n]].
  destruct an; [|reflexivity]. cbn.
  pose proof (fold_add_bounds dataArray 0 Hall) as Hsum.
  assert (0 < Z.of_nat (length dataArray)) as Hlen
    by (destruct dataArray; [contradiction | cbn [length]; lia]).
  unfold frequencyAverage.
  set (sum := fold_left Z.add dataArray 0) in *.
  set (len := Z.of_nat (length dataArray)) in *.
  assert (0 < inject_Z len)%Q as Hlen' by (unfold Qlt; cbn; lia).
  assert (0 <= inject_Z sum / inject_Z len)%Q as H0.
  { apply Qle_shift_div_l; [exact Hlen'|]. rewrite Qmult_0_l.
    unfold Qle; cbn; lia. }
  assert (inject_Z sum / inject_Z len <= 255)%Q as H1.
  { apply Qle_shift_div_r; [exact Hlen'|].
    unfold Qle; cbn; lia. }
  set (avg := (inject_Z sum / inject_Z len)%Q) in *.
  assert (avg / 128 == avg * (1 # 128))%Q as Heq by (unfold Qdiv; reflexivity).
  rewrite Heq. repeat split; lra.
Qed.

Lemma volume_normalised_witness :
  [0; 255; 128; 1] <> []
  /\ Forall (fun b => 0 <= b <= 255) [0; 255; 128; 1]
  /\ analyserNodeRef (refs listeningForRef) = true
  /\ (volume (st (step (EAnimationFrame (frequencyAverage [0; 255; 128; 1]%Z))
                      listeningForRef)) < 2)%Q.
Proof.
  assert (Forall (fun b => 0 <= b <= 255) [0; 255; 128; 1]) as Hall
    by (repeat constructor; lia).
  split; [discriminate|]. split; [exact Hall|]. split; [reflexivity|].
  pose proof (volume_normalised listeningForRef [0; 255; 128; 1]
                ltac:(discriminate) Hall) as H.
  cbv zeta in H. change (analyserNodeRef (refs listeningForRef)) with true in H.
  destruct H as (_ & _ & H). exact H.
Defined.

(** ** The support chat *)

Lemma trimStart_nil s : trimStart s = [] <-> forallb Js.isSpace s = true.
Proof.
  induction s as [|c s IH]; [split; reflexivity|].
  cbn [trimStart forallb]. destruct (Js.isSpace c); cbn [andb].
  - exact IH.
  - split; discriminate.
Qed.

Lemma trim_nil s : trim s = [] <-> forallb Js.isSpace s = true.
Proof.
  unfold trim. split.
  - intros H. apply trimStart_nil.
    apply (f_equal (@rev N)) in H. rewrite rev_involutive in H. cbn in H.
    apply trimStart_nil in H. rewrite forallb_forall in H.
    destruct (trimStart s) as [|c rest] eqn:Hs; [reflexivity|]. exfalso.
    assert (Js.isSpace c = true) as Hc by (apply H, in_rev; rewrite rev_involutive; now left).
    clear H. induction s as [|x s IH]; [discriminate Hs|].
    cbn [trimStart] in Hs. destruct (Js.isSpace x) eqn:Hx; [now apply IH|].
    injection Hs as -> _. congruence.
  - intros H. apply trimStart_nil in H. rewrite H. reflexivity.
Qed.

(** X20: in every state of the chat the microphone button shows either the
    spinner or the recording mark, never both: the component is never
    recording and connecting at once.  And [cleanupVoice] drops every voice
    handle and both flags. *)
Theorem voice_flags_exclusive (c : Chatbot.Chat) :
  Chatbot.reachable c ->
  Chatbot.isRecording (Chatbot.view c)
  && Chatbot.isConnectingVoice (Chatbot.view c) = false
  /\ (let c' := Chatbot.cleanupVoice c in
      Chatbot.isRecording (Chatbot.view c') = false
      /\ Chatbot.isConnectingVoice (Chatbot.view c') = false
      /\ Chatbot.voiceSessionRef (Chatbot.cells c') = false
      /\ Chatbot.voiceAudioContextRef (Chatbot.cells c') = false
      /\ Chatbot.voiceMediaStreamRef (Chatbot.cells c') = false
      /\ Chatbot.voiceScriptProcessorRef (Chatbot.cells c') = false).
Proof.
  intros Hreach. split.
  - induction Hreach as [|e c Hreach IH]; [reflexivity|].
    destruct c as [[m i l r v] [ch vs va vm vp oc nst srcs n g]].
    cbn in IH.
    destruct e as [ok saved now| |value|now|response now|granted| |tr| | |now d];
      cbn.
    + destruct ok; [destruct saved as [|[|x msgs]|]|]; exact IH.
    + reflexivity.
    + exact IH.
    + unfold Chatbot.handleSend. cbn.
      match goal with |- context [if ?g then _ else _] => destruct g end;
        exact IH.
    + exact IH.
    + unfold Chatbot.handleToggleRecording. cbn.
      destruct r; [reflexivity|]. destruct granted; reflexivity.
    + reflexivity.
    + destruct tr as [[|x t]|]; exact IH.
    + reflexivity.
    + reflexivity.
    + exact IH.
  - destruct c as [[m i l r v] [ch vs va vm vp oc nst srcs n g]].
    repeat split; reflexivity.
Qed.

Lemma voice_flags_exclusive_witness :
  let c := Chatbot.step Chatbot.EVoiceOpen
             (Chatbot.step (Chatbot.EToggleRecording true) Chatbot.initial) in
  Chatbot.reachable c
  /\ Chatbot.isRecording (Chatbot.view c) = true
  /\ Chatbot.isConnectingVoice (Chatbot.view c) = false.
Proof.
  cbv zeta.
  assert (Chatbot.reachable
            (Chatbot.step Chatbot.EVoiceOpen
               (Chatbot.step (Chatbot.EToggleRecording true) Chatbot.initial)))
    as Hreach by (do 2 apply Chatbot.reachable_next; apply Chatbot.reachable_initial).
  split; [exact Hreach|]. split; [reflexivity|].
  destruct (voice_flags_exclusive _ Hreach) as [H _].
  apply andb_false_iff in H as [H|H]; [discriminate H | exact H].
Defined.




(** X22: an input made of white space only (or empty) is never sent: the
    chat stays exactly as it is, and the playback is not stopped. *)
Theorem blank_input_not_sent (c : Chatbot.Chat) (now : Js.str) :
  forallb Js.isSpace (Chatbot.input (Chatbot.view c)) = true ->
  Chatbot.handleSend now c = c.
Proof.
  intros Hblank. apply trim_nil in Hblank.
  unfold Chatbot.handleSend. now rewrite Hblank.
Qed.

Lemma blank_input_not_sent_witness :
  let c := Chatbot.step (Chatbot.EType (Js.lit "   "))
             (Chatbot.step (Chatbot.EOpened true Chatbot.nothingSaved (Js.lit "09:00"))
                Chatbot.initial) in
  forallb Js.isSpace (Chatbot.input (Chatbot.view c)) = true
  /\ Chatbot.handleSend (Js.lit "09:01") c = c.
Proof.
  cbv zeta. split; [reflexivity|].
  apply blank_input_not_sent. reflexivity.
Defined.

(** X23: opening the chat never shows an empty conversation.  A saved
    conversation that is not empty comes back as it was saved; with nothing
    saved the conversation is the greeting alone; when the saved text cannot
    be read or the service cannot be set up it is the notice alone, and the
    chat handle is left as it was. *)
Theorem opening_never_empty
  (c : Chatbot.Chat) (serviceOk : bool) (saved : Chatbot.Saved) (now : Js.str) :
  let c' := Chatbot.opened serviceOk saved now c in
  Chatbot.messages (Chatbot.view c') <> []
  /\ match serviceOk, saved with
     | true, Chatbot.savedMessages (m :: ms) =>
         Chatbot.messages (Chatbot.view c') = m :: ms
         /\ Chatbot.chatRef (Chatbot.cells c') = true
     | true, Chatbot.unreadable | false, _ =>
         Chatbot.messages (Chatbot.view c')
         = [Chatbot.mkChatMessage Chatbot.unavailable false now]
         /\ Chatbot.chatRef (Chatbot.cells c') = Chatbot.chatRef (Chatbot.cells c)
     | true, _ =>
         Chatbot.messages (Chatbot.view c')
         = [Chatbot.mkChatMessage Chatbot.greeting false now]
         /\ Chatbot.chatRef (Chatbot.cells c') = true
     end.
Proof.
  cbv zeta.
  destruct c as [[m i l r v] [ch vs va vm vp oc nst srcs n g]].
  destruct serviceOk; [destruct saved as [|[|x msgs]|]|destruct saved as [|[|x msgs]|]];
    split; try discriminate; split; reflexivity.
Qed.

(** ** Which payloads are accepted *)

Lemma stripSpaces_digits_or_spaces s :
  forallb (fun c => Js.isDigit c || Js.isSpace c) s = true ->
  Js.stripSpaces s = stripNonDigits s.
Proof.
  unfold Js.stripSpaces, stripNonDigits.
  induction s as [|c s IH]; [reflexivity|].
  cbn [forallb List.filter]. intros [Hc Hs]%andb_true_iff.
  rewrite (IH Hs). destruct (Js.isSpace c) eqn:Hsp.
  - now rewrite (isSpace_not_digit _ Hsp).
  - rewrite orb_false_r in Hc. now rewrite Hc.
Qed.

Lemma stripSpaces_all_digits_inv s :
  forallb Js.isDigit (Js.stripSpaces s) = true ->
  forallb (fun c => Js.isDigit c || Js.isSpace c) s = true.
Proof.
  unfold Js.stripSpaces.
  induction s as [|c s IH]; [reflexivity|].
  cbn [forallb List.filter]. destruct (Js.isSpace c) eqn:Hsp; cbn [negb].
  - intros H. now rewrite orb_true_r, IH.
  - cbn [forallb]. intros [Hc Hs]%andb_true_iff. now rewrite Hc, IH.
Qed.

Lemma guard_iff_payloadOk n arg :
  Js.truthy (Js.stripSpaces (Js.orEmpty arg))
  && Js.testDigits (S n) (Js.stripSpaces (Js.orEmpty arg))
  = payloadOk (S n) arg.
Proof.
  unfold payloadOk.
  destruct (Js.testDigits (S n) (Js.stripSpaces (Js.orEmpty arg))) eqn:Hg.
  - rewrite (testDigits_truthy _ _ Hg). cbn [andb]. symmetry.
    rewrite (guard_digitCount _ _ Hg), Nat.eqb_refl. cbn [andb].
    apply stripSpaces_all_digits_inv.
    unfold Js.testDigits in Hg. now apply andb_true_iff in Hg as [_ Hg].
  - rewrite andb_false_r. symmetry. apply not_true_is_false. intros Hok.
    apply andb_true_iff in Hok as [Hn Hall]. apply Nat.eqb_eq in Hn.
    assert (Js.testDigits (S n) (Js.stripSpaces (Js.orEmpty arg)) = true);
      [|congruence].
    unfold Js.testDigits.
    rewrite (stripSpaces_digits_or_spaces _ Hall), stripNonDigits_digits,
      andb_true_r.
    apply Nat.eqb_eq. rewrite <- Hn.
    destruct arg as [s|]; [rewrite orEmpty_Some|]; reflexivity.
Qed.

(** X24: a submitted reference is accepted exactly when its payload is made
    of digits and white space only and holds seven digits; the digits are
    then stored, in their order, and the step becomes [CONFIRMING_DPW].  Any
    other payload (missing, too short, too long, with a letter or a dash)
    leaves the hook as it is.  The same holds for the token with six digits
    and [CONFIRMING_TOKEN]. *)
Theorem submit_accepted_iff (h : Hook) (env : Env) (arg : option Js.str) :
  step (EMessage env (says (submitDpwReferenceNumber arg))) h
  = (if payloadOk 7 arg
     then exec (setBookingStep CONFIRMING_DPW)
            (exec (setDpwRef (stripNonDigits (Js.orEmpty arg))) h)
     else h)
  /\ step (EMessage env (says (submitTokenNumber arg))) h
     = (if payloadOk 6 arg
        then exec (setBookingStep CONFIRMING_TOKEN)
               (exec (setToken (stripNonDigits (Js.orEmpty arg))) h)
        else h).
Proof.
  rewrite !step_says. unfold after, handleFunctionCall, andThen, cmds, skip.
  rewrite !guard_iff_payloadOk.
  split.
  - destruct (payloadOk 7 arg) eqn:Hok.
    + apply andb_true_iff in Hok as [_ Hall].
      rewrite (stripSpaces_digits_or_spaces _ Hall).
      destruct_hook h. destruct sp; reflexivity.
    + destruct_hook h. destruct sp; reflexivity.
  - destruct (payloadOk 6 arg) eqn:Hok.
    + apply andb_true_iff in Hok as [_ Hall].
      rewrite (stripSpaces_digits_or_spaces _ Hall).
      destruct_hook h. destruct sp; reflexivity.
    + destruct_hook h. destruct sp; reflexivity.
Qed.

Example payloads_judged :
  payloadOk 7 (Some (Js.lit " 12 345 67 ")) = true
  /\ payloadOk 7 (Some (Js.lit "123-4567")) = false
  /\ payloadOk 7 (Some (Js.lit "12345678")) = false
  /\ payloadOk 7 None = false
  /\ payloadOk 6 (Some (Js.lit "654321")) = true.
Proof. repeat split; reflexivity. Qed.

(** ** Messages as the session may deliver them *)

Lemma decode_name c fc : Raw.decode c = Some fc -> fcName fc = Raw.name c.
Proof.
  unfold Raw.decode. destruct c as [nm [a|]]; cbn [Raw.name Raw.args].
  all: repeat match goal with
       | |- context [String.eqb ?x ?s] =>
           destruct (String.eqb_spec x s) as [->|?]
       end; cbn; intros H; try discriminate H; injection H as <-; reflexivity.
Qed.

Lemma handleCalls_spec cs : forall rnd h,
  run (Raw.handleCalls rnd cs h).1 h
  = run (handleFunctionCalls rnd (Raw.applied cs) h) h
  /\ (Raw.handleCalls rnd cs h).2 = Raw.complete cs.
Proof.
  induction cs as [|c cs IH]; intros rnd h; [split; reflexivity|].
  cbn [Raw.handleCalls Raw.applied Raw.complete forallb].
  destruct (Raw.decode c) as [fc|].
  - cbn [fst snd handleFunctionCalls andb]. unfold andThen.
    destruct (IH (fun i => rnd (draws fc + i)%nat)
                 (run (handleFunctionCall rnd fc h) h)) as [Hrun Hok].
    rewrite !run_app, Hrun. split; [reflexivity | exact Hok].
  - cbn [fst snd handleFunctionCalls skip andb]. split; [|reflexivity].
    destruct (sessionPromiseRef (refs h)); [|reflexivity].
    cbn [run fold_left]. apply exec_sendToolResponse.
Qed.

Lemma handleCalls_toolResponses cs : forall rnd h,
  toolResponses (Raw.handleCalls rnd cs h).1
  = if sessionPromiseRef (refs h)
    then Raw.name <$> Raw.answered cs
    else [].
Proof.
  induction cs as [|c cs IH]; intros rnd h.
  - now destruct (sessionPromiseRef (refs h)).
  - cbn [Raw.handleCalls Raw.answered]. destruct (Raw.decode c) as [fc|] eqn:Hc.
    + cbn [fst]. rewrite toolResponses_app, IH, handleFunctionCall_toolResponses.
      fold (after (handleFunctionCall rnd fc) h).
      rewrite handleFunctionCall_refs, (decode_name _ _ Hc).
      now destruct (sessionPromiseRef (refs h)).
    + cbn [fst]. now destruct (sessionPromiseRef (refs h)).
Qed.

Lemma toolResponses_stop (g : bool) (x : Hook) :
  toolResponses (if g then stopPlayback x else []) = [].
Proof. destruct g; reflexivity. Qed.

(** On a message with everything in place the callback with exits is the
    callback without. *)
Lemma effective_ofMessage message :
  Forall Raw.properName (functionCalls message) ->
  Raw.effective (Raw.ofMessage message) = Some message.
Proof.
  destruct message as [a fcs i]. cbn [functionCalls]. intros Hall.
  assert (Raw.applied (Raw.ofCall <$> fcs) = fcs
          /\ Raw.complete (Raw.ofCall <$> fcs) = true) as [Happ Hcom].
  { induction fcs as [|fc fcs IH]; [split; reflexivity|].
    inversion Hall as [|? ? Hfc Hrest]; subst.
    destruct (IH Hrest) as [IH1 IH2].
    assert (Raw.decode (Raw.ofCall fc) = Some fc) as Hdec
      by (destruct fc; try reflexivity; exact Hfc).
    cbn [fmap list_fmap Raw.applied Raw.complete forallb].
    change (list_fmap _ _ Raw.ofCall fcs) with (Raw.ofCall <$> fcs).
    rewrite Hdec. fold (Raw.complete (Raw.ofCall <$> fcs)).
    rewrite IH1, IH2. split; reflexivity. }
  unfold Raw.effective, Raw.ofMessage.
  destruct a; cbn [Raw.modelTurn Raw.functionCalls Raw.interrupted];
    now rewrite Happ, Hcom.
Qed.

(** X5: while a session is held and the model turn, if any, has its parts,
    the callback queues one tool response per function call, in their
    order, for every call up to and including the first one that throws for
    want of its [args] object, whether the call is acted on, fails its
    guard or is unknown, and none for the calls after it; so every call is
    answered when none throws.  Without a session, or when the model turn
    has no parts, nothing is answered. *)
Theorem every_call_is_answered
  (h : Hook) (env : Env) (message : Raw.LiveServerMessage) :
  toolResponses (Raw.onmessage env message h)
  = (if sessionPromiseRef (refs h)
     then match Raw.modelTurn message with
          | Raw.turnWithoutParts => []
          | _ => Raw.name <$> Raw.answered (Raw.functionCalls message)
          end
     else [])
  /\ (Raw.complete (Raw.functionCalls message) = true ->
      Raw.answered (Raw.functionCalls message) = Raw.functionCalls message).
Proof.
  split.
  - unfold Raw.onmessage.
    destruct (Raw.modelTurn message) as [| |[d|]].
    2: now destruct (sessionPromiseRef (refs h)).
    all: rewrite !toolResponses_app, handleCalls_toolResponses.
    all: rewrite toolResponses_stop, app_nil_r.
    2: { destruct (playAudio_session (currentTime env) d h) as [Hsp ->].
         unfold after in Hsp. rewrite Hsp. reflexivity. }
    all: reflexivity.
  - generalize (Raw.functionCalls message) as cs.
    induction cs as [|c cs IH]; [reflexivity|].
    cbn [Raw.complete Raw.answered forallb].
    destruct (Raw.decode c); [|discriminate].
    cbn [andb]. intros Hcs. f_equal. now apply IH.
Qed.

Lemma every_call_is_answered_witness :
  let calls :=
    [Raw.mkCall "ping" None;
     Raw.mkCall "confirmToken" None;
     Raw.mkCall "confirmBooking" (Some (Raw.mkArgs None false true))] in
  sessionPromiseRef (refs listeningForRef) = true
  /\ Raw.complete calls = false
  /\ toolResponses (Raw.onmessage quiet (Raw.mkLive Raw.noTurn calls false)
                      listeningForRef)
     = ["ping"; "confirmToken"]%string.
Proof.
  cbv zeta. split; [reflexivity|]. split; [reflexivity|].
  destruct (every_call_is_answered listeningForRef quiet
              (Raw.mkLive Raw.noTurn
                 [Raw.mkCall "ping" None;
                  Raw.mkCall "confirmToken" None;
                  Raw.mkCall "confirmBooking"
                    (Some (Raw.mkArgs None false true))] false)) as [H _].
  rewrite H. reflexivity.
Defined.

(** What the callback with exits does to the hook is what the callback
    without does on the effective message. *)
Lemma raw_onmessage_effective
  (h : Hook) (env : Env) (message : Raw.LiveServerMessage) :
  after (Raw.onmessage env message) h
  = match Raw.effective message with
    | Some message' => step (EMessage env message') h
    | None => h
    end.
Proof.
  unfold after, step, after, handler, Raw.onmessage, Raw.effective, onmessage.
  destruct (Raw.modelTurn message) as [| |[d|]]; [|reflexivity| |].
  all: cbn [audio functionCalls interrupted].
  all: unfold andThen; rewrite !run_app.
  all: match goal with
       | |- context [Raw.handleCalls ?r ?cs ?x] =>
           destruct (handleCalls_spec cs r x) as [Hrun Hok];
           rewrite Hrun, Hok
       end.
  all: destruct (Raw.complete (Raw.functionCalls message) && Raw.interrupted message);
    reflexivity.
Qed.

(** So every property of [onmessage] holds of the callback with exits on
    the messages that have everything in place. *)
Lemma raw_onmessage_ofMessage (h : Hook) (env : Env) (message : Message) :
  Forall Raw.properName (functionCalls message) ->
  after (Raw.onmessage env (Raw.ofMessage message)) h
  = step (EMessage env message) h.
Proof.
  intros Hall. now rewrite raw_onmessage_effective, effective_ofMessage.
Qed.

Lemma applied_until_throw before bad later :
  Raw.complete before = true -> Raw.decode bad = None ->
  Raw.applied (before ++ bad :: later) = Raw.applied before
  /\ Raw.complete (before ++ bad :: later) = false.
Proof.
  intros Hbefore Hbad.
  induction before as [|c before IH].
  - cbn [app Raw.applied Raw.complete forallb]. rewrite Hbad. split; reflexivity.
  - cbn [app Raw.applied Raw.complete forallb] in *.
    destruct (Raw.decode c); [|discriminate Hbefore].
    cbn [andb] in *. destruct (IH Hbefore) as [-> Hc].
    split; [reflexivity | exact Hc].
Qed.

(** X25: a function call of a known name that comes without its [args]
    object stops the callback where it is read: the hook ends as if the
    message had carried only the calls before it and no interrupted flag,
    so neither that call nor any call after it is applied and a pending
    interruption is not acted on.  A model turn without parts stops the
    callback before it has done anything, whatever else the message
    carries. *)
Theorem throwing_call_aborts
  (h : Hook) (env : Env) (turn : Raw.ModelTurn)
  (before later calls : list Raw.Call) (bad : Raw.Call) (flag : bool) :
  Raw.complete before = true ->
  Raw.decode bad = None ->
  after (Raw.onmessage env (Raw.mkLive turn (before ++ bad :: later) flag)) h
  = after (Raw.onmessage env (Raw.mkLive turn before false)) h
  /\ after (Raw.onmessage env (Raw.mkLive Raw.turnWithoutParts calls flag)) h = h.
Proof.
  intros Hbefore Hbad. split; [|reflexivity].
  destruct (applied_until_throw before bad later Hbefore Hbad) as [Happ Hcom].
  rewrite !raw_onmessage_effective. unfold Raw.effective.
  cbn [Raw.modelTurn Raw.functionCalls Raw.interrupted].
  rewrite Happ, Hcom, andb_false_r.
  destruct turn as [| |[d|]]; reflexivity.
Qed.

Lemma throwing_call_aborts_witness :
  let first :=
    Raw.mkCall "submitDpwReferenceNumber"
      (Some (Raw.mkArgs (Some sampleRef) false false)) in
  let bad := Raw.mkCall "confirmDpwReference" None in
  let last :=
    Raw.mkCall "submitTokenNumber"
      (Some (Raw.mkArgs (Some sampleToken) false false)) in
  Raw.complete [first] = true
  /\ Raw.decode bad = None
  /\ after (Raw.onmessage quiet (Raw.mkLive Raw.noTurn [first; bad; last] true))
           listeningForRef
     = after (Raw.onmessage quiet (Raw.mkLive Raw.noTurn [first] false))
             listeningForRef.
Proof.
  cbv zeta. split; [reflexivity|]. split; [reflexivity|].
  destruct (throwing_call_aborts listeningForRef quiet Raw.noTurn
              [Raw.mkCall "submitDpwReferenceNumber"
                 (Some (Raw.mkArgs (Some sampleRef) false false))]
              [Raw.mkCall "submitTokenNumber"
                 (Some (Raw.mkArgs (Some sampleToken) false false))]
              [] (Raw.mkCall "confirmDpwReference" None) true eq_refl eq_refl)
    as [H _].
  exact H.
Defined.

Example abort_at_missing_args :
  let message :=
    Raw.mkLive Raw.noTurn
      [Raw.mkCall "submitDpwReferenceNumber"
         (Some (Raw.mkArgs (Some sampleRef) false false));
       Raw.mkCall "confirmDpwReference" None;
       Raw.mkCall "submitTokenNumber"
         (Some (Raw.mkArgs (Some sampleToken) false false))]
      true in
  let h := after (Raw.onmessage quiet message) listeningForRef in
  bookingStep (st h) = CONFIRMING_DPW
  /\ dpwRef (st h) = sampleRef
  /\ token (st h) = [].
Proof. repeat split; reflexivity. Qed.
